(** * GeeORM: a shallow embedding of the clause builder, the schema
    reflector, the session and the transaction wrapper.

    Go values of type [interface{}] are embedded as the inductive [value];
    a Go panic is the [Panic] outcome of a computation; code that mutates an
    object through a pointer receiver is a computation in the state-and-panic
    monad [M], whose state survives a panic (as the heap object does in Go,
    which is what [defer] and [recover] observe). *)

From stdpp Require Import gmap strings list fin_maps pretty sorting.
From Stdlib Require Import ZArith.

Local Open Scope Z_scope.
Local Open Scope string_scope.
Local Open Scope list_scope.

(** ** Go runtime: dynamic values, panics, formatting *)

(** The shapes of [interface{}] that the package passes around: [nil],
    strings, Go's [int], booleans, [[]string], [[]interface{}] and
    [map[string]interface{}]. The other integer widths, floats, byte strings
    and times never reach a branch of the code below and are left out. *)
#[warnings="-register-all"]
Inductive value :=
  | VNil
  | VStr (s : string)
  | VInt (n : Z)
  | VBool (b : bool)
  | VStrs (l : list string)
  | VSlice (l : list value)
  | VMap (m : gmap string value).

(** Go's [error] values: what the driver reports, and what [errors.New]
    builds inside the package. *)
Inductive error :=
  | DriverError (msg : string)
  | ErrorsNew (msg : string).

Global Instance error_eq_dec : EqDecision error.
Proof. solve_decision. Defined.

Inductive panic :=
  | IndexOutOfRange (i : nat) (len : nat)
  | TypeAssertion (want : string)
  | NilMapWrite
  | NilDereference
  | PanicValue (msg : string).

Global Instance panic_eq_dec : EqDecision panic.
Proof. solve_decision. Defined.

Inductive outcome (A : Type) :=
  | Ok (a : A)
  | Panic (p : panic).
Arguments Ok {A} a.
Arguments Panic {A} p.

(** The state-and-panic monad. *)
Definition M (St A : Type) : Type := St → outcome A * St.

Definition ret {St A} (a : A) : M St A := λ st, (Ok a, st).
Definition bind {St A B} (m : M St A) (k : A → M St B) : M St B :=
  λ st, match m st with
        | (Ok a, st') => k a st'
        | (Panic p, st') => (Panic p, st')
        end.
Definition get {St} : M St St := λ st, (Ok st, st).
Definition put {St} (st : St) : M St unit := λ _, (Ok tt, st).
Definition modify {St} (f : St → St) : M St unit := λ st, (Ok tt, f st).
Definition throw {St A} (p : panic) : M St A := λ st, (Panic p, st).
Definition lift {St A} (o : outcome A) : M St A := λ st, (o, st).

Notation "x <- m ;; k" := (bind m (λ x, k))
  (at level 100, m at next level, right associativity).
Notation "m ;;; k" := (bind m (λ _, k))
  (at level 100, right associativity).

(** The same sequencing for pure code that can only panic. *)
Definition obind {A B} (o : outcome A) (k : A → outcome B) : outcome B :=
  match o with Ok a => k a | Panic p => Panic p end.

(** [values[i]] on a slice: a run-time panic out of range. *)
Definition index {A} (l : list A) (i : nat) : outcome A :=
  match l !! i with
  | Some x => Ok x
  | None => Panic (IndexOutOfRange i (length l))
  end.

(** [strings.Join]. *)
Definition Join (elems : list string) (sep : string) : string :=
  String.concat sep elems.

(** [fmt.Sprintf] with one verb, [%v] or [%s], on one operand. A string
    prints as itself under both; an operand of another type prints under
    [%s] with Go's bad-verb marker. Maps print with their keys sorted. *)
Inductive verb := VerbV | VerbS.

Fixpoint Sprint (vb : verb) (v : value) {struct v} : string :=
  match v with
  | VNil => match vb with VerbV => "<nil>" | VerbS => "%!s(<nil>)" end
  | VStr s => s
  | VInt n =>
      match vb with
      | VerbV => pretty n
      | VerbS => "%!s(int=" +:+ pretty n +:+ ")"
      end
  | VBool b =>
      let t := if b then "true" else "false" in
      match vb with VerbV => t | VerbS => "%!s(bool=" +:+ t +:+ ")" end
  | VStrs l => "[" +:+ Join l " " +:+ "]"
  | VSlice l => "[" +:+ Join (map (Sprint vb) l) " " +:+ "]"
  | VMap m =>
      "map[" +:+
      Join ((λ kv : string * string, kv.1 +:+ ":" +:+ kv.2) <$>
              merge_sort (λ a b : string * string, String.leb a.1 b.1)
                (map_fold (λ k x acc, (k, Sprint vb x) :: acc) [] m)) " "
      +:+ "]"
  end.

(** [for key, value := range m] visits every entry once, in an order the
    runtime picks. The order is an oracle: any function that lists the
    entries of each map, in some order. *)
Record MapRange := {
  range_of : gmap string value → list (string * value);
  range_of_perm : ∀ m, range_of m ≡ₚ map_to_list m
}.

(** ** Package clause *)

Module clause.

(** [type Type int] with its nine constants. *)
Inductive Type' :=
  | INSERT | VALUES | SELECT | LIMIT | WHERE | ORDERBY | UPDATE | DELETE | COUNT.

Global Instance Type_eq_dec : EqDecision Type'.
Proof. solve_decision. Defined.

Definition Type_to_nat (t : Type') : nat :=
  match t with
  | INSERT => 0 | VALUES => 1 | SELECT => 2 | LIMIT => 3 | WHERE => 4
  | ORDERBY => 5 | UPDATE => 6 | DELETE => 7 | COUNT => 8
  end%nat.

Definition Type_of_nat (n : nat) : option Type' :=
  match n with
  | 0 => Some INSERT | 1 => Some VALUES | 2 => Some SELECT | 3 => Some LIMIT
  | 4 => Some WHERE | 5 => Some ORDERBY | 6 => Some UPDATE | 7 => Some DELETE
  | 8 => Some COUNT | _ => None
  end%nat.

Global Program Instance Type_countable : Countable Type' :=
  inj_countable Type_to_nat Type_of_nat _.
Next Obligation. by intros []. Qed.

(** [generator] is [func(values ...interface{}) (string, []interface{})]. *)
Definition generator : Type := list value → outcome (string * list value).

(** Type assertions [x.([]string)], [x.([]interface{})],
    [x.(map[string]interface{})] and [x.(string)]. *)
Definition as_strings (v : value) : outcome (list string) :=
  match v with VStrs l => Ok l | _ => Panic (TypeAssertion "[]string") end.
Definition as_slice (v : value) : outcome (list value) :=
  match v with
  | VSlice l => Ok l
  | _ => Panic (TypeAssertion "[]interface {}")
  end.
Definition as_map (v : value) : outcome (gmap string value) :=
  match v with
  | VMap m => Ok m
  | _ => Panic (TypeAssertion "map[string]interface {}")
  end.
Definition as_string (v : value) : outcome string :=
  match v with VStr s => Ok s | _ => Panic (TypeAssertion "string") end.

Definition genBindVars (num : nat) : string :=
  Join (replicate num "?") ", ".

Definition _insert : generator := λ values,
  obind (index values 0) (λ tableName,
  obind (index values 1) (λ v1,
  obind (as_strings v1) (λ names,
  let fields := Join names ", " in
  Ok ("INSERT INTO " +:+ Sprint VerbS tableName +:+ " (" +:+ fields +:+ ")",
      [])))).

(** The loop of [_values]: [i] is the loop index, [n] is [len(values)]. *)
Fixpoint _values_loop (n i : nat) (rest : list value)
    (bindStr sql : string) (vars : list value)
    : outcome (string * list value) :=
  match rest with
  | [] => Ok (sql, vars)
  | value :: rest' =>
      obind (as_slice value) (λ v,
      let bindStr := if decide (bindStr = "") then genBindVars (length v)
                     else bindStr in
      let sql := sql +:+ "(" +:+ bindStr +:+ ")" in
      let sql := if decide (i + 1 ≠ n)%nat then sql +:+ ", " else sql in
      _values_loop n (S i) rest' bindStr sql (vars ++ v))
  end.

Definition _values : generator := λ values,
  _values_loop (length values) 0 values "" "VALUES " [].

Definition _select : generator := λ values,
  obind (index values 0) (λ tableName,
  obind (index values 1) (λ v1,
  obind (as_strings v1) (λ names,
  let fields := Join names ", " in
  Ok ("SELECT " +:+ fields +:+ " FROM " +:+ Sprint VerbS tableName, [])))).

Definition _limit : generator := λ values, Ok ("LIMIT ?", values).

Definition _where : generator := λ values,
  obind (index values 0) (λ desc,
  let vars := drop 1 values in
  Ok ("WHERE " +:+ Sprint VerbV desc, vars)).

Definition _orderBy : generator := λ values,
  obind (index values 0) (λ v0, Ok ("ORDER BY " +:+ Sprint VerbV v0, [])).

(** The loop of [_update] over the entries in the order the range
    statement yields them. *)
Fixpoint _update_loop (entries : list (string * value))
    (keys : list string) (vars : list value) : list string * list value :=
  match entries with
  | [] => (keys, vars)
  | (key, value) :: rest =>
      _update_loop rest (keys ++ [key +:+ " = ?"]) (vars ++ [value])
  end.

Definition _update (R : MapRange) : generator := λ values,
  obind (index values 0) (λ tableName,
  obind (index values 1) (λ v1,
  obind (as_map v1) (λ m,
  let '(keys, vars) := _update_loop (range_of R m) [] [] in
  Ok ("UPDATE " +:+ Sprint VerbS tableName +:+ " SET " +:+ Join keys ", ",
      vars)))).

Definition _delete : generator := λ values,
  obind (index values 0) (λ v0, Ok ("DELETE FROM " +:+ Sprint VerbS v0, [])).

Definition _count : generator := λ values,
  obind (index values 0) (λ v0, _select [v0; VStrs ["count(*)"]]).

(** The table filled by [init]. *)
Definition generators (R : MapRange) (name : Type') : generator :=
  match name with
  | INSERT => _insert
  | VALUES => _values
  | SELECT => _select
  | LIMIT => _limit
  | WHERE => _where
  | ORDERBY => _orderBy
  | UPDATE => _update R
  | DELETE => _delete
  | COUNT => _count
  end.

(** [Clause]: two maps, both [nil] in the zero value [Clause{}]. A [nil]
    map reads as empty and panics on a write. *)
Record Clause := mkClause {
  sql : option (gmap Type' string);
  sqlVars : option (gmap Type' (list value))
}.

Definition zero : Clause := {| sql := None; sqlVars := None |}.

Definition map_read {V} (m : option (gmap Type' V)) (k : Type') : option V :=
  match m with Some m => m !! k | None => None end.

Definition map_write {V} (m : option (gmap Type' V)) (k : Type') (v : V)
    : outcome (option (gmap Type' V)) :=
  match m with
  | Some m => Ok (Some (<[k := v]> m))
  | None => Panic NilMapWrite
  end.

(** [func (c *Clause) Set(name Type, vars ...interface{})]. *)
Definition Set' (R : MapRange) (name : Type') (vars : list value)
    : M Clause unit :=
  c <- get ;;
  (if decide (sql c = None)
   then put {| sql := Some ∅; sqlVars := Some ∅ |}
   else ret tt) ;;;
  r <- lift (generators R name vars) ;;
  c <- get ;;
  m <- lift (map_write (sql c) name r.1) ;;
  put {| sql := m; sqlVars := sqlVars c |} ;;;
  c <- get ;;
  m <- lift (map_write (sqlVars c) name r.2) ;;
  put {| sql := sql c; sqlVars := m |}.

(** The loop of [Build]. *)
Fixpoint Build_loop (c : Clause) (orders : list Type')
    (sqls : list string) (vars : list value) : list string * list value :=
  match orders with
  | [] => (sqls, vars)
  | order :: rest =>
      match map_read (sql c) order with
      | Some s =>
          Build_loop c rest (sqls ++ [s])
                     (vars ++ default [] (map_read (sqlVars c) order))
      | None => Build_loop c rest sqls vars
      end
  end.

(** [func (c *Clause) Build(orders ...Type) (string, []interface{})]. The
    receiver is a pointer, so [Build] runs in the monad like [Set']; its
    body only reads [c]. *)
Definition Build (orders : list Type') : M Clause (string * list value) :=
  c <- get ;;
  let '(sqls, vars) := Build_loop c orders [] [] in
  ret (Join sqls " ", vars).

End clause.

(** ** Package dialect *)

Module dialect.

(** [reflect.Kind]. *)
Inductive Kind :=
  | Invalid | Bool | Int | Int8 | Int16 | Int32 | Int64
  | Uint | Uint8 | Uint16 | Uint32 | Uint64 | Uintptr
  | Float32 | Float64 | Complex64 | Complex128
  | Array | Chan | Func | Interface | Map | Pointer | Slice | String
  | Struct | UnsafePointer.

Global Instance Kind_eq_dec : EqDecision Kind.
Proof. solve_decision. Defined.

(** [Kind.String]. *)
Definition Kind_String (k : Kind) : string :=
  match k with
  | Invalid => "invalid" | Bool => "bool" | Int => "int" | Int8 => "int8"
  | Int16 => "int16" | Int32 => "int32" | Int64 => "int64" | Uint => "uint"
  | Uint8 => "uint8" | Uint16 => "uint16" | Uint32 => "uint32"
  | Uint64 => "uint64" | Uintptr => "uintptr" | Float32 => "float32"
  | Float64 => "float64" | Complex64 => "complex64"
  | Complex128 => "complex128" | Array => "array" | Chan => "chan"
  | Func => "func" | Interface => "interface" | Map => "map"
  | Pointer => "ptr" | Slice => "slice" | String => "string"
  | Struct => "struct" | UnsafePointer => "unsafe.Pointer"
  end.

(** What [DataTypeOf] reads off the zero value of a field's type: the kind,
    the type's name (empty for an unnamed type such as [map[string]int])
    and whether the value is a [time.Time]. *)
Record GoType := mkGoType {
  type_Kind : Kind;
  type_Name : string;
  type_is_Time : bool
}.

Global Instance GoType_eq_dec : EqDecision GoType.
Proof. solve_decision. Defined.

(** The interface [Dialect]; an implementation may panic. *)
Record Dialect := mkDialect {
  DataTypeOf : GoType → outcome string;
  TableExistSQL : string → string * list value
}.

Definition sqlite3_DataTypeOf (typ : GoType) : outcome string :=
  let invalid :=
    Panic (PanicValue ("invalid sql type " +:+ type_Name typ +:+ " (" +:+
                       Kind_String (type_Kind typ) +:+ ")")) in
  match type_Kind typ with
  | Bool => Ok "bool"
  | Int | Int8 | Int16 | Int32 | Uint | Uint8 | Uint16 | Uint32 => Ok "integer"
  | Int64 | Uint64 => Ok "bigint"
  | Float32 | Float64 => Ok "real"
  | String => Ok "text"
  | Array | Slice => Ok "blob"
  | Struct => if type_is_Time typ then Ok "datetime" else invalid
  | _ => invalid
  end.

Definition sqlite3_TableExistSQL (tableName : string) : string * list value :=
  let args := [VStr tableName] in
  ("SELECT name FROM sqlite_master WHERE type='table' and name = ?", args).

Definition sqlite3 : Dialect :=
  {| DataTypeOf := sqlite3_DataTypeOf; TableExistSQL := sqlite3_TableExistSQL |}.

End dialect.

(** ** Packages unicode/utf8 and unicode, as go/ast uses them

    [ast.IsExported] decodes the first rune of a name and asks whether it
    is an upper-case letter. A Go string is its UTF-8 bytes, and so is a
    [string] here. *)

Module utf8.
Local Open Scope Z_scope.

Definition RuneError : Z := 0xFFFD.

Definition byte_of (a : Ascii.ascii) : Z := Z.of_N (Ascii.N_of_ascii a).

(** The table [first] with [acceptRanges]: for a leading byte that is not
    ASCII, the length of the sequence and the bounds of its second byte;
    [None] is the entry [xx] of an invalid leading byte. *)
Definition first (s0 : Z) : option (nat * (Z * Z)) :=
  if s0 <? 0xC2 then None
  else if s0 <=? 0xDF then Some (2%nat, (0x80, 0xBF))
  else if s0 =? 0xE0 then Some (3%nat, (0xA0, 0xBF))
  else if s0 <=? 0xEC then Some (3%nat, (0x80, 0xBF))
  else if s0 =? 0xED then Some (3%nat, (0x80, 0x9F))
  else if s0 <=? 0xEF then Some (3%nat, (0x80, 0xBF))
  else if s0 =? 0xF0 then Some (4%nat, (0x90, 0xBF))
  else if s0 <=? 0xF3 then Some (4%nat, (0x80, 0xBF))
  else if s0 =? 0xF4 then Some (4%nat, (0x80, 0x8F))
  else None.

(** A continuation byte: between [locb] and [hicb]. *)
Definition continues (b : Z) : bool := (0x80 <=? b) && (b <=? 0xBF).

(** [DecodeRuneInString]: the rune and its width in bytes. *)
Definition DecodeRuneInString (s : string) : Z * nat :=
  match s with
  | String.EmptyString => (RuneError, 0%nat)
  | String.String a0 rest =>
      let s0 := byte_of a0 in
      if s0 <? 0x80 then (s0, 1%nat)
      else
        match first s0 with
        | None => (RuneError, 1%nat)
        | Some (sz, (lo, hi)) =>
            if (String.length s <? sz)%nat then (RuneError, 1%nat)
            else
              match rest with
              | String.EmptyString => (RuneError, 1%nat)
              | String.String a1 rest =>
                  let s1 := byte_of a1 in
                  if (s1 <? lo) || (hi <? s1) then (RuneError, 1%nat)
                  else if (sz <=? 2)%nat then
                    (Z.lor (Z.shiftl (Z.land s0 0x1F) 6) (Z.land s1 0x3F),
                     2%nat)
                  else
                    match rest with
                    | String.EmptyString => (RuneError, 1%nat)
                    | String.String a2 rest =>
                        let s2 := byte_of a2 in
                        if negb (continues s2) then (RuneError, 1%nat)
                        else if (sz <=? 3)%nat then
                          (Z.lor (Z.lor (Z.shiftl (Z.land s0 0x0F) 12)
                                        (Z.shiftl (Z.land s1 0x3F) 6))
                                 (Z.land s2 0x3F), 3%nat)
                        else
                          match rest with
                          | String.EmptyString => (RuneError, 1%nat)
                          | String.String a3 _ =>
                              let s3 := byte_of a3 in
                              if negb (continues s3) then (RuneError, 1%nat)
                              else
                                (Z.lor (Z.lor (Z.lor
                                   (Z.shiftl (Z.land s0 0x07) 18)
                                   (Z.shiftl (Z.land s1 0x3F) 12))
                                   (Z.shiftl (Z.land s2 0x3F) 6))
                                   (Z.land s3 0x3F), 4%nat)
                          end
                    end
              end
        end
  end.

End utf8.

Module unicode.
Local Open Scope Z_scope.

Definition MaxLatin1 : Z := 0xFF.

(** A [RangeTable]: entries [Lo], [Hi], [Stride], sorted and apart. *)
Definition RangeTable : Type := list (Z * Z * Z).

(** [Upper], the letters of category Lu above Latin-1 (Unicode 15.0.0):
    the entries of [R16], then those of [    (0x10400, 0x10427, 1); (0x104b0, 0x104d3, 1); (0x10570, 0x1057a, 1);
    (0x1057c, 0x1058a, 1); (0x1058c, 0x10592, 1); (0x10594, 0x10595, 1);
    (0x10c80, 0x10cb2, 1); (0x118a0, 0x118bf, 1); (0x16e40, 0x16e5f, 1);
    (0x1d400, 0x1d419, 1); (0x1d434, 0x1d44d, 1); (0x1d468, 0x1d481, 1);
    (0x1d49c, 0x1d49e, 2); (0x1d49f, 0x1d4a5, 3); (0x1d4a6, 0x1d4a9, 3);
    (0x1d4aa, 0x1d4ac, 1); (0x1d4ae, 0x1d4b5, 1); (0x1d4d0, 0x1d4e9, 1);
    (0x1d504, 0x1d505, 1); (0x1d507, 0x1d50a, 1); (0x1d50d, 0x1d514, 1);
    (0x1d516, 0x1d51c, 1); (0x1d538, 0x1d539, 1); (0x1d53b, 0x1d53e, 1);
    (0x1d540, 0x1d544, 1); (0x1d546, 0x1d54a, 4); (0x1d54b, 0x1d550, 1);
    (0x1d56c, 0x1d585, 1); (0x1d5a0, 0x1d5b9, 1); (0x1d5d4, 0x1d5ed, 1);
    (0x1d608, 0x1d621, 1); (0x1d63c, 0x1d655, 1); (0x1d670, 0x1d689, 1);
    (0x1d6a8, 0x1d6c0, 1); (0x1d6e2, 0x1d6fa, 1); (0x1d71c, 0x1d734, 1);
    (0x1d756, 0x1d76e, 1); (0x1d790, 0x1d7a8, 1); (0x1d7ca, 0x1e900, 4406);
    (0x1e901, 0x1e921, 1)]. *)
Definition Upper : RangeTable :=
  [
    (0x0100, 0x0136, 2); (0x0139, 0x0147, 2); (0x014a, 0x0178, 2);
    (0x0179, 0x017d, 2); (0x0181, 0x0182, 1); (0x0184, 0x0186, 2);
    (0x0187, 0x0189, 2); (0x018a, 0x018b, 1); (0x018e, 0x0191, 1);
    (0x0193, 0x0194, 1); (0x0196, 0x0198, 1); (0x019c, 0x019d, 1);
    (0x019f, 0x01a0, 1); (0x01a2, 0x01a6, 2); (0x01a7, 0x01a9, 2);
    (0x01ac, 0x01ae, 2); (0x01af, 0x01b1, 2); (0x01b2, 0x01b3, 1);
    (0x01b5, 0x01b7, 2); (0x01b8, 0x01bc, 4); (0x01c4, 0x01cd, 3);
    (0x01cf, 0x01db, 2); (0x01de, 0x01ee, 2); (0x01f1, 0x01f4, 3);
    (0x01f6, 0x01f8, 1); (0x01fa, 0x0232, 2); (0x023a, 0x023b, 1);
    (0x023d, 0x023e, 1); (0x0241, 0x0243, 2); (0x0244, 0x0246, 1);
    (0x0248, 0x024e, 2); (0x0370, 0x0372, 2); (0x0376, 0x037f, 9);
    (0x0386, 0x0388, 2); (0x0389, 0x038a, 1); (0x038c, 0x038e, 2);
    (0x038f, 0x0391, 2); (0x0392, 0x03a1, 1); (0x03a3, 0x03ab, 1);
    (0x03cf, 0x03d2, 3); (0x03d3, 0x03d4, 1); (0x03d8, 0x03ee, 2);
    (0x03f4, 0x03f7, 3); (0x03f9, 0x03fa, 1); (0x03fd, 0x042f, 1);
    (0x0460, 0x0480, 2); (0x048a, 0x04c0, 2); (0x04c1, 0x04cd, 2);
    (0x04d0, 0x052e, 2); (0x0531, 0x0556, 1); (0x10a0, 0x10c5, 1);
    (0x10c7, 0x10cd, 6); (0x13a0, 0x13f5, 1); (0x1c90, 0x1cba, 1);
    (0x1cbd, 0x1cbf, 1); (0x1e00, 0x1e94, 2); (0x1e9e, 0x1efe, 2);
    (0x1f08, 0x1f0f, 1); (0x1f18, 0x1f1d, 1); (0x1f28, 0x1f2f, 1);
    (0x1f38, 0x1f3f, 1); (0x1f48, 0x1f4d, 1); (0x1f59, 0x1f5f, 2);
    (0x1f68, 0x1f6f, 1); (0x1fb8, 0x1fbb, 1); (0x1fc8, 0x1fcb, 1);
    (0x1fd8, 0x1fdb, 1); (0x1fe8, 0x1fec, 1); (0x1ff8, 0x1ffb, 1);
    (0x2102, 0x2107, 5); (0x210b, 0x210d, 1); (0x2110, 0x2112, 1);
    (0x2115, 0x2119, 4); (0x211a, 0x211d, 1); (0x2124, 0x212a, 2);
    (0x212b, 0x212d, 1); (0x2130, 0x2133, 1); (0x213e, 0x213f, 1);
    (0x2145, 0x2183, 62); (0x2c00, 0x2c2f, 1); (0x2c60, 0x2c62, 2);
    (0x2c63, 0x2c64, 1); (0x2c67, 0x2c6d, 2); (0x2c6e, 0x2c70, 1);
    (0x2c72, 0x2c75, 3); (0x2c7e, 0x2c80, 1); (0x2c82, 0x2ce2, 2);
    (0x2ceb, 0x2ced, 2); (0x2cf2, 0xa640, 31054); (0xa642, 0xa66c, 2);
    (0xa680, 0xa69a, 2); (0xa722, 0xa72e, 2); (0xa732, 0xa76e, 2);
    (0xa779, 0xa77d, 2); (0xa77e, 0xa786, 2); (0xa78b, 0xa78d, 2);
    (0xa790, 0xa792, 2); (0xa796, 0xa7aa, 2); (0xa7ab, 0xa7ae, 1);
    (0xa7b0, 0xa7b4, 1); (0xa7b6, 0xa7c4, 2); (0xa7c5, 0xa7c7, 1);
    (0xa7c9, 0xa7d0, 7); (0xa7d6, 0xa7d8, 2); (0xa7f5, 0xff21, 22316);
    (0xff22, 0xff3a, 1);
    (0x10400, 0x10427, 1); (0x104b0, 0x104d3, 1); (0x10570, 0x1057a, 1);
    (0x1057c, 0x1058a, 1); (0x1058c, 0x10592, 1); (0x10594, 0x10595, 1);
    (0x10c80, 0x10cb2, 1); (0x118a0, 0x118bf, 1); (0x16e40, 0x16e5f, 1);
    (0x1d400, 0x1d419, 1); (0x1d434, 0x1d44d, 1); (0x1d468, 0x1d481, 1);
    (0x1d49c, 0x1d49e, 2); (0x1d49f, 0x1d4a5, 3); (0x1d4a6, 0x1d4a9, 3);
    (0x1d4aa, 0x1d4ac, 1); (0x1d4ae, 0x1d4b5, 1); (0x1d4d0, 0x1d4e9, 1);
    (0x1d504, 0x1d505, 1); (0x1d507, 0x1d50a, 1); (0x1d50d, 0x1d514, 1);
    (0x1d516, 0x1d51c, 1); (0x1d538, 0x1d539, 1); (0x1d53b, 0x1d53e, 1);
    (0x1d540, 0x1d544, 1); (0x1d546, 0x1d54a, 4); (0x1d54b, 0x1d550, 1);
    (0x1d56c, 0x1d585, 1); (0x1d5a0, 0x1d5b9, 1); (0x1d5d4, 0x1d5ed, 1);
    (0x1d608, 0x1d621, 1); (0x1d63c, 0x1d655, 1); (0x1d670, 0x1d689, 1);
    (0x1d6a8, 0x1d6c0, 1); (0x1d6e2, 0x1d6fa, 1); (0x1d71c, 0x1d734, 1);
    (0x1d756, 0x1d76e, 1); (0x1d790, 0x1d7a8, 1); (0x1d7ca, 0x1e900, 4406);
    (0x1e901, 0x1e921, 1)
  ].

(** The upper-case letters of Latin-1, which [IsUpper] reads off the
    table [properties]. *)
Definition latin1_upper (r : Z) : bool :=
  ((0x41 <=? r) && (r <=? 0x5A)) || ((0xC0 <=? r) && (r <=? 0xD6))
  || ((0xD8 <=? r) && (r <=? 0xDE)).

(** The search of a table for [r]: the first entry that does not end
    before [r] decides. *)
Fixpoint is_in (tab : RangeTable) (r : Z) : bool :=
  match tab with
  | [] => false
  | (lo, hi, stride) :: rest =>
      if r <? lo then false
      else if r <=? hi then (stride =? 1) || ((r - lo) mod stride =? 0)
      else is_in rest r
  end.

Definition IsUpper (r : Z) : bool :=
  if r <=? MaxLatin1 then latin1_upper r else is_in Upper r.

End unicode.

(** ** Package schema *)

Module schema.
Import dialect.

(** [reflect.StructField] as [Parse] reads it; [sf_Tag] is the result of
    [p.Tag.Lookup("geeorm")]. *)
Record StructField := mkStructField {
  sf_Name : string;
  sf_Anonymous : bool;
  sf_Type : GoType;
  sf_Tag : option string
}.

(** A struct type: its bare name and its fields in declaration order. *)
Record StructType := mkStructType {
  st_Name : string;
  st_Fields : list StructField
}.

(** The value bound as a model: a struct or a pointer to one. Only its
    dynamic type is ever inspected. *)
Record object := mkObject {
  obj_pointer : bool;
  obj_Type : StructType
}.

Global Instance StructField_eq_dec : EqDecision StructField.
Proof. solve_decision. Defined.
Global Instance StructType_eq_dec : EqDecision StructType.
Proof. solve_decision. Defined.
Global Instance object_eq_dec : EqDecision object.
Proof. solve_decision. Defined.

Record Field := mkField {
  Name : string;
  Type_ : string;
  Tag : string
}.

Global Instance Field_eq_dec : EqDecision Field.
Proof. solve_decision. Defined.

(** [Schema]; its field [Name] is [TableName] here, [Field] having taken
    the name. *)
Record Schema := mkSchema {
  Model : object;
  TableName : string;
  Fields : list Field;
  FieldNames : list string;
  fieldMap : gmap string Field
}.

(** [GetField]: the map lookup; [None] is the [nil] pointer. *)
Definition GetField (s : Schema) (name : string) : option Field :=
  fieldMap s !! name.

(** [ast.IsExported]: the first rune of the name is an upper-case
    letter. *)
Definition IsExported (name : string) : bool :=
  let '(ch, _) := utf8.DecodeRuneInString name in
  unicode.IsUpper ch.

Definition is_column (p : StructField) : bool :=
  negb (sf_Anonymous p) && IsExported (sf_Name p).

(** The loop of [Parse] over the fields [modelType.Field(i)]. *)
Fixpoint Parse_loop (d : Dialect) (fields : list StructField)
    (schema : Schema) : outcome Schema :=
  match fields with
  | [] => Ok schema
  | p :: rest =>
      if is_column p then
        obind (DataTypeOf d (sf_Type p)) (λ ty,
        let field := {| Name := sf_Name p; Type_ := ty; Tag := "" |} in
        let field :=
          match sf_Tag p with
          | Some v => {| Name := Name field; Type_ := Type_ field; Tag := v |}
          | None => field
          end in
        Parse_loop d rest
          {| Model := Model schema;
             TableName := TableName schema;
             Fields := Fields schema ++ [field];
             FieldNames := FieldNames schema ++ [sf_Name p];
             fieldMap := <[sf_Name p := field]> (fieldMap schema) |})
      else Parse_loop d rest schema
  end.

Definition Parse (dest : object) (d : Dialect) : outcome Schema :=
  let modelType := obj_Type dest in
  let schema := {| Model := dest; TableName := st_Name modelType;
                   Fields := []; FieldNames := []; fieldMap := ∅ |} in
  Parse_loop d (st_Fields modelType) schema.

End schema.

(** ** Package database/sql, as the session sees it

    The driver is outside the repository. Its handles are opaque numbers,
    every call on it is recorded in a trace, and what it answers is an
    oracle that may depend on all calls made before. *)

Module sqldb.

Definition sqlDB := nat.
Definition sqlTx := nat.

(** The interface [CommonDB] of the session package: a [*sql.DB] or a
    [*sql.Tx]. *)
Inductive CommonDB :=
  | ViaDB (db : sqlDB)
  | ViaTx (tx : sqlTx).

Inductive event :=
  | EvExec (via : CommonDB) (query : string) (args : list value)
  | EvQuery (via : CommonDB) (query : string) (args : list value)
  | EvQueryRow (via : CommonDB) (query : string) (args : list value)
  | EvBegin (db : sqlDB)
  | EvCommit (tx : sqlTx)
  | EvRollback (tx : sqlTx).

(** [sql.Result]: only [RowsAffected] is called. *)
Record Result := mkResult { RowsAffected : Z * option error }.

(** [*sql.Row]: only [Scan] into one [*string] is called. *)
Record Row := mkRow { Scan_string : string + error }.

(** One row delivered by [Next]: its columns as [Scan] converts them for
    the destinations, or the conversion error [Scan] returns. *)
Record ScanRow := mkScanRow {
  row_cols : list value;
  row_err : option error
}.

(** [*sql.Rows]: what [Columns] returns, the rows [Next] delivers, and what
    [Close] returns once they are exhausted. *)
Record Rows := mkRows {
  Columns : list string + error;
  Next : list ScanRow;
  Close : option error
}.

(** [rows.Scan(dest...)] with [n] destinations: the error, or the values
    stored. *)
Definition Scan (r : ScanRow) (n : nat) : list value + error :=
  if decide (n ≠ length (row_cols r))
  then inr (DriverError ("sql: expected " +:+ pretty (length (row_cols r)) +:+
                         " destination arguments in Scan, not " +:+ pretty n))
  else match row_err r with
       | Some e => inr e
       | None => inl (row_cols r)
       end.

Record Driver := mkDriver {
  Exec : list event → CommonDB → string → list value → Result + error;
  Query : list event → CommonDB → string → list value → Rows + error;
  QueryRow : list event → CommonDB → string → list value → Row;
  Begin : list event → sqlDB → sqlTx + error;
  Commit : list event → sqlTx → option error;
  Rollback : list event → sqlTx → option error
}.

End sqldb.

(** ** Package session *)

Module session.
Import dialect schema sqldb.

Record Session := mkSession {
  db : sqlDB;
  sql : string;
  sqlVars : list value;
  dialect : Dialect;
  refTable : option Schema;
  clause : clause.Clause;
  tx : option sqlTx
}.

(** The heap a session method runs on: the session it points to and the
    trace of driver calls so far. *)
Record State := mkState {
  sess : Session;
  trace : list event
}.

Definition set_sql (v : string) (s : Session) : Session :=
  mkSession (db s) v (sqlVars s) (dialect s) (refTable s) (clause s) (tx s).
Definition set_sqlVars (v : list value) (s : Session) : Session :=
  mkSession (db s) (sql s) v (dialect s) (refTable s) (clause s) (tx s).
Definition set_refTable (v : option Schema) (s : Session) : Session :=
  mkSession (db s) (sql s) (sqlVars s) (dialect s) v (clause s) (tx s).
Definition set_clause (v : clause.Clause) (s : Session) : Session :=
  mkSession (db s) (sql s) (sqlVars s) (dialect s) (refTable s) v (tx s).
Definition set_tx (v : option sqlTx) (s : Session) : Session :=
  mkSession (db s) (sql s) (sqlVars s) (dialect s) (refTable s) (clause s) v.

Definition update (f : Session → Session) : M State unit :=
  modify (λ st, mkState (f (sess st)) (trace st)).
Definition emit (e : event) : M State unit :=
  modify (λ st, mkState (sess st) (trace st ++ [e])).

(** A method call on the field [s.clause]. *)
Definition on_clause {A} (m : M clause.Clause A) : M State A :=
  λ st, match m (clause (sess st)) with
        | (o, c) => (o, mkState (set_clause c (sess st)) (trace st))
        end.

(** [defer d] at the head of a function body: [d] runs when the body
    returns and when it panics. *)
Definition defer {St A} (d : M St unit) (body : M St A) : M St A :=
  λ st, match body st with
        | (o, st') =>
            match d st' with
            | (Ok _, st'') => (o, st'')
            | (Panic p, st'') => (Panic p, st'')
            end
        end.

(** Dereferencing a pointer that may be [nil]. *)
Definition deref {St A} (p : option A) : M St A :=
  match p with Some a => ret a | None => throw NilDereference end.

Definition err_of {A} (r : A + error) : option error :=
  match r with inl _ => None | inr e => Some e end.

Definition New (db : sqlDB) (dialect : Dialect) : Session :=
  {| db := db; sql := ""; sqlVars := []; dialect := dialect;
     refTable := None; clause := clause.zero; tx := None |}.

Definition Clear : M State unit :=
  update (set_sql "") ;;;
  update (set_sqlVars []) ;;;
  update (set_clause clause.zero).

Definition DB (s : Session) : CommonDB :=
  match tx s with
  | Some t => ViaTx t
  | None => ViaDB (db s)
  end.

Definition Raw (sql' : string) (values : list value) : M State unit :=
  update (λ s, set_sql (sql s +:+ sql') s) ;;;
  update (λ s, set_sql (sql s +:+ " ") s) ;;;
  update (λ s, set_sqlVars (sqlVars s ++ values) s).

Section methods.
Context (R : MapRange) (D : Driver).

Definition Exec : M State (Result + error) :=
  defer Clear
    (st <- get ;;
     let s := sess st in
     emit (EvExec (DB s) (sql s) (sqlVars s)) ;;;
     ret (sqldb.Exec D (trace st) (DB s) (sql s) (sqlVars s))).

Definition QueryRow : M State Row :=
  defer Clear
    (st <- get ;;
     let s := sess st in
     emit (EvQueryRow (ViaDB (db s)) (sql s) (sqlVars s)) ;;;
     ret (sqldb.QueryRow D (trace st) (ViaDB (db s)) (sql s) (sqlVars s))).

Definition QueryRows : M State (Rows + error) :=
  defer Clear
    (st <- get ;;
     let s := sess st in
     emit (EvQuery (DB s) (sql s) (sqlVars s)) ;;;
     ret (sqldb.Query D (trace st) (DB s) (sql s) (sqlVars s))).

(** *** transaction.go *)

Definition Begin : M State (option error) :=
  st <- get ;;
  emit (EvBegin (db (sess st))) ;;;
  match sqldb.Begin D (trace st) (db (sess st)) with
  | inl t => update (set_tx (Some t)) ;;; ret None
  | inr e => update (set_tx None) ;;; ret (Some e)
  end.

Definition Commit : M State (option error) :=
  st <- get ;;
  t <- deref (tx (sess st)) ;;
  emit (EvCommit t) ;;;
  ret (sqldb.Commit D (trace st) t).

Definition Rollback : M State (option error) :=
  st <- get ;;
  t <- deref (tx (sess st)) ;;
  emit (EvRollback t) ;;;
  ret (sqldb.Rollback D (trace st) t).

(** *** table.go *)

Definition Model (value : object) : M State unit :=
  st <- get ;;
  let s := sess st in
  match refTable s with
  | Some t =>
      if decide (value ≠ schema.Model t)
      then t' <- lift (Parse value (dialect s)) ;;
           update (set_refTable (Some t'))
      else ret tt
  | None =>
      t' <- lift (Parse value (dialect s)) ;;
      update (set_refTable (Some t'))
  end.

Definition RefTable : M State (option Schema) :=
  st <- get ;; ret (refTable (sess st)).

Definition CreateTable : M State (option error) :=
  p <- RefTable ;;
  table <- deref p ;;
  let columns :=
    (λ field, Name field +:+ " " +:+ Type_ field +:+ " " +:+ Tag field)
      <$> Fields table in
  let desc := Join columns "," in
  Raw ("CREATE TABLE " +:+ TableName table +:+ " (" +:+ desc +:+ ");") [] ;;;
  r <- Exec ;;
  ret (err_of r).

Definition DropTable : M State (option error) :=
  p <- RefTable ;;
  table <- deref p ;;
  Raw ("DROP TABLE IF EXISTS " +:+ TableName table) [] ;;;
  r <- Exec ;;
  ret (err_of r).

Definition HasTable : M State bool :=
  st <- get ;;
  p <- RefTable ;;
  table <- deref p ;;
  let '(sql', values) := TableExistSQL (dialect (sess st)) (TableName table) in
  Raw sql' values ;;;
  row <- QueryRow ;;
  let tmp := match Scan_string row with inl v => v | inr _ => "" end in
  p <- RefTable ;;
  table <- deref p ;;
  ret (bool_decide (tmp = TableName table)).

(** *** record.go *)

Definition Where (desc : string) (args : list value) : M State unit :=
  on_clause (clause.Set' R clause.WHERE ([VStr desc] ++ args)).

Definition Limit (num : Z) : M State unit :=
  on_clause (clause.Set' R clause.LIMIT [VInt num]).

Definition OrderBy (desc : string) : M State unit :=
  on_clause (clause.Set' R clause.ORDERBY [VStr desc]).

(** The loop [for i := 0; i < len(kv); i += 2] of [Update]; [rest] is
    [kv[i:]] and [n] is [len(kv)]. The key is asserted to be a string
    before [kv[i+1]] is read. *)
Fixpoint Update_pairs (n i : nat) (rest : list value) (m : gmap string value)
    : outcome (gmap string value) :=
  match rest with
  | [] => Ok m
  | k :: rest' =>
      obind (clause.as_string k) (λ key,
      match rest' with
      | [] => Panic (IndexOutOfRange (i + 1) n)
      | v :: rest'' => Update_pairs n (i + 2) rest'' (<[key := v]> m)
      end)
  end.

Definition Update (kv : list value) : M State (Z * option error) :=
  kv0 <- lift (index kv 0) ;;
  m <- lift (match kv0 with
             | VMap m => Ok m
             | _ => Update_pairs (length kv) 0 kv ∅
             end) ;;
  p <- RefTable ;;
  table <- deref p ;;
  on_clause (clause.Set' R clause.UPDATE [VStr (TableName table); VMap m]) ;;;
  q <- on_clause (clause.Build [clause.UPDATE; clause.WHERE]) ;;
  Raw q.1 q.2 ;;;
  r <- Exec ;;
  match r with
  | inr err => ret (0, Some err)
  | inl result => ret (RowsAffected result)
  end.

(** A value of a struct type: field name to field value. *)
Definition instance : Type := gmap string value.

(** The zero value of a field, for the kinds [value] can hold. *)
Definition zero_value (t : GoType) : value :=
  match type_Kind t with
  | Bool => VBool false
  | Int | Int8 | Int16 | Int32 | Int64
  | Uint | Uint8 | Uint16 | Uint32 | Uint64 | Uintptr => VInt 0
  | String => VStr ""
  | _ => VNil
  end.

(** [reflect.New(destType).Elem()]. *)
Definition New_Elem (destType : StructType) : instance :=
  list_to_map ((λ p, (sf_Name p, zero_value (sf_Type p))) <$> st_Fields destType).

(** [dest.FieldByName(name).Addr()] for each name: the fields addressed;
    a name that is no field gives the zero [reflect.Value], on which
    [Addr] panics. *)
Fixpoint field_addrs (dest : instance) (names : list string)
    : outcome (list string) :=
  match names with
  | [] => Ok []
  | name :: rest =>
      match dest !! name with
      | Some _ => obind (field_addrs dest rest) (λ l, Ok (name :: l))
      | None =>
          Panic (PanicValue "reflect: call of reflect.Value.Addr on zero Value")
      end
  end.

(** What a successful [Scan] leaves in [dest] through those addresses. *)
Fixpoint store (dest : instance) (addrs : list string) (cols : list value)
    : instance :=
  match addrs, cols with
  | a :: addrs', c :: cols' => store (<[a := c]> dest) addrs' cols'
  | _, _ => dest
  end.

(** The loop [for rows.Next()] of [Find], then [rows.Close()]. The
    result is the error returned and the destination slice as left. *)
Fixpoint Find_loop (destType : StructType) (table : Schema)
    (rows : list ScanRow) (close : option error) (destValue : list instance)
    : outcome (option error * list instance) :=
  match rows with
  | [] => Ok (close, destValue)
  | row :: rest =>
      let dest := New_Elem destType in
      obind (field_addrs dest (FieldNames table)) (λ values,
      match Scan row (length values) with
      | inr err => Ok (Some err, destValue)
      | inl cols =>
          Find_loop destType table rest close
                    (destValue ++ [store dest values cols])
      end)
  end.

(** [Find] on a pointer to a slice of [destType], holding [destValue]. *)
Definition Find (destType : StructType) (destValue : list instance)
    : M State (option error * list instance) :=
  Model {| obj_pointer := false; obj_Type := destType |} ;;;
  p <- RefTable ;;
  table <- deref p ;;
  on_clause (clause.Set' R clause.SELECT
               [VStr (TableName table); VStrs (FieldNames table)]) ;;;
  q <- on_clause (clause.Build [clause.SELECT; clause.WHERE;
                                clause.ORDERBY; clause.LIMIT]) ;;
  Raw q.1 q.2 ;;;
  r <- QueryRows ;;
  match r with
  | inr err => ret (Some err, destValue)
  | inl rows =>
      lift (Find_loop destType table (Next rows) (Close rows) destValue)
  end.


End methods.
End session.

(** ** Package geeorm *)

Module geeorm.
Import dialect schema sqldb session.

Record Engine := mkEngine {
  db : sqlDB;
  dialect : Dialect
}.

Definition NewSession (e : Engine) : Session :=
  session.New (db e) (dialect e).

(** [TxFunc]: it is handed the session, which is the state it runs on. *)
Definition TxFunc : Type := M State (value * option error).

(** A local variable holding a fresh session: the body runs on it and the
    session is dropped afterwards. *)
Definition with_session {A} (s : Session) (m : M State A) : M (list event) A :=
  λ tr, match m (mkState s tr) with (o, st) => (o, trace st) end.

(** A deferred closure that calls [recover]: it sees how the body ended,
    a panic or the named results, and decides how the function ends. *)
Definition defer_recover {St A} (d : outcome A → M St A) (body : M St A)
    : M St A :=
  λ st, match body st with (o, st') => d o st' end.

(** [func difference(a, b []string) (diff []string)]. *)
Definition difference (a b : list string) : list string :=
  let m : gmap string bool := foldl (λ m s, <[s := true]> m) ∅ b in
  foldl (λ (diff : list string) s,
           match m !! s with
           | Some _ => diff
           | None => diff ++ [s]
           end) [] a.

Section engine.
Context (R : MapRange) (D : Driver).

Definition Transaction (e : Engine) (f : TxFunc)
    : M (list event) (value * option error) :=
  with_session (NewSession e)
    (err <- Begin D ;;
     match err with
     | Some err => ret (VNil, Some err)
     | None =>
         defer_recover
           (λ o, match o with
                 | Panic p => Rollback D ;;; throw p
                 | Ok (result, Some err) =>
                     Rollback D ;;; ret (result, Some err)
                 | Ok (result, None) =>
                     err <- Commit D ;; ret (result, err)
                 end)
           f
     end).

(** The two differences [Migrate] takes. *)
Definition Migrate_cols (table : Schema) (columns : list string)
    : list string * list string :=
  let addCols := difference (FieldNames table) columns in
  let delCols := difference columns (FieldNames table) in
  (addCols, delCols).

(** The loop [for _, col := range addCols]; [Some err] is the early
    return. *)
Fixpoint Migrate_add (table : Schema) (addCols : list string)
    : M State (option error) :=
  match addCols with
  | [] => ret None
  | col :: rest =>
      f <- deref (GetField table col) ;;
      let sqlStr := "ALTER TABLE " +:+ TableName table +:+ " ADD COLUMN " +:+
                    Name f +:+ " " +:+ Type_ f +:+ ";" in
      Raw sqlStr [] ;;;
      r <- Exec D ;;
      match r with
      | inr err => ret (Some err)
      | inl _ => Migrate_add table rest
      end
  end.

Definition Migrate_func (value : object) : TxFunc :=
  Model value ;;;
  has <- HasTable D ;;
  if negb has then
    err <- CreateTable D ;; ret (VNil, err)
  else
    p <- RefTable ;;
    table <- deref p ;;
    Raw ("SELECT * FROM " +:+ TableName table +:+ " LIMIT 1") [] ;;;
    r <- QueryRows D ;;
    rows <- deref (match r with inl rows => Some rows | inr _ => None end) ;;
    let columns := match Columns rows with inl c => c | inr _ => [] end in
    let '(addCols, delCols) := Migrate_cols table columns in
    err <- Migrate_add table addCols ;;
    match err with
    | Some err => ret (VNil, Some err)
    | None =>
        if decide (length delCols = 0%nat) then ret (VNil, None)
        else
          let tmp := "tmp_" +:+ TableName table in
          let fieldStr := Join (FieldNames table) ", " in
          Raw ("CREATE TABLE " +:+ tmp +:+ " AS SELECT " +:+ fieldStr +:+
               " from " +:+ TableName table +:+ ";") [] ;;;
          Raw ("DROP TABLE " +:+ TableName table +:+ ";") [] ;;;
          Raw ("ALTER TABLE " +:+ tmp +:+ " RENAME TO " +:+
               TableName table +:+ ";") [] ;;;
          r <- Exec D ;;
          ret (VNil, err_of r)
    end.

Definition Migrate (engine : Engine) (value : object)
    : M (list event) (option error) :=
  r <- Transaction engine (Migrate_func value) ;;
  ret r.2.

End engine.
End geeorm.

(** ** Vocabulary of the specification, and sample inputs *)

Module spec.
Import dialect schema sqldb session geeorm.

(** A run of [Set] calls, one per pair, in list order. *)
Fixpoint Sets (R : MapRange) (ops : list (clause.Type' * list value))
    : M clause.Clause unit :=
  match ops with
  | [] => ret tt
  | op :: rest => clause.Set' R op.1 op.2 ;;; Sets R rest
  end.

(** The kinds of [orders] that have an entry in the clause set. *)
Definition present (c : clause.Clause) (orders : list clause.Type')
    : list clause.Type' :=
  filter (λ k, is_Some (clause.map_read (clause.sql c) k)) orders.

Definition fragments (c : clause.Clause) (orders : list clause.Type')
    : list string :=
  omap (clause.map_read (clause.sql c)) orders.

Definition parameters (c : clause.Clause) (orders : list clause.Type')
    : list value :=
  concat ((λ k, default [] (clause.map_read (clause.sqlVars c) k))
            <$> present c orders).

(** The clause set after [Set] stored a fragment and its parameters. *)
Definition clause_with (c : clause.Clause) (name : clause.Type')
    (frag : string) (vars : list value) : clause.Clause :=
  {| clause.sql := Some (<[name := frag]> (default ∅ (clause.sql c)));
     clause.sqlVars := Some (<[name := vars]> (default ∅ (clause.sqlVars c))) |}.

(** The two maps of a clause set are made together. *)
Definition clause_wf (c : clause.Clause) : Prop :=
  clause.sql c = None ↔ clause.sqlVars c = None.

(** A session as its methods leave it: the cached schema is the one
    [Parse] derives for its model. *)
Definition session_wf (s : Session) : Prop :=
  clause_wf (clause s) ∧
  ∀ t, refTable s = Some t → Parse (schema.Model t) (session.dialect s) = Ok t.

(** The session holds no pending statement and no clause. *)
Definition cleared (s : Session) : Prop :=
  sql s = "" ∧ sqlVars s = [] ∧ clause s = clause.zero.

(** Every column field of the struct type has a storage type in the
    dialect. *)
Definition mapped (d : Dialect) (T : StructType) : Prop :=
  ∀ p, p ∈ st_Fields T → is_column p = true →
       ∃ ty, DataTypeOf d (sf_Type p) = Ok ty.

(** The column a field becomes, given its storage type. *)
Definition column_of (p : StructField) (ty : string) : Field :=
  {| Name := sf_Name p; Type_ := ty; Tag := default "" (sf_Tag p) |}.

(** The column [f] is the one [Parse] derives from the field [p]. *)
Definition derives (d : Dialect) (p : StructField) (f : Field) : Prop :=
  DataTypeOf d (sf_Type p) = Ok (Type_ f) ∧ f = column_of p (Type_ f).



(** The calls of the trace that close the transaction [t]: its [Commit]s
    and its [Rollback]s. *)
Definition closes (t : sqlTx) (ev : event) : bool :=
  match ev with
  | EvCommit t' | EvRollback t' => bool_decide (t' = t)
  | _ => false
  end.

Definition closings (t : sqlTx) (tr : list event) : list event :=
  filter (λ ev, closes t ev) tr.

(** The iteration order that follows the map's own listing, and its
    reverse. *)
Definition range_listed : MapRange :=
  {| range_of := map_to_list; range_of_perm := λ m, reflexivity _ |}.

Definition range_reversed : MapRange :=
  {| range_of := λ m, reverse (map_to_list m);
     range_of_perm := λ m, reverse_Permutation _ |}.

(** The model of the repository's tests. *)
Definition User : StructType :=
  mkStructType "User"
    [mkStructField "Name" false (mkGoType String "string" false)
                   (Some "PRIMARY KEY");
     mkStructField "Age" false (mkGoType Int "int" false) None].

(** A struct with a field the sqlite3 dialect has no type for. *)
Definition Tagged : StructType :=
  mkStructType "Tagged"
    [mkStructField "Labels" false (mkGoType Map "" false) None].

(** A driver that accepts everything: a transaction is numbered by the
    length of the trace at its [Begin], a query finds one user. *)
Definition accepting : Driver :=
  {| sqldb.Exec := λ _ _ _ _, inl (mkResult (1, None));
     sqldb.Query := λ _ _ _ _,
       inl (mkRows (inl ["Name"; "Age"])
                   [mkScanRow [VStr "Tom"; VInt 18] None] None);
     sqldb.QueryRow := λ _ _ _ _, mkRow (inl "User");
     sqldb.Begin := λ tr _, inl (length tr);
     sqldb.Commit := λ _ _, None;
     sqldb.Rollback := λ _ _, None |}.


Definition engine0 : Engine := mkEngine 7%nat sqlite3.

Definition fresh : State := mkState (NewSession engine0) [].

(** A callback that begins a transaction of its own on the session. *)
Definition nested_begin : TxFunc :=
  Begin accepting ;;; ret (VNil, None).

(** A callback that creates the table and inserts nothing. *)
Definition create_user : TxFunc :=
  Model (mkObject true User) ;;;
  err <- CreateTable accepting ;;
  ret (VNil, err).

(** [sql.ErrTxDone]. *)
Definition ErrTxDone : error :=
  DriverError "sql: transaction has already been committed or rolled back".

(** The accepting driver on which a transaction is finished by its first
    [Commit] or [Rollback]: a later one is answered [ErrTxDone]. *)
Definition finishing : Driver :=
  {| sqldb.Exec := sqldb.Exec accepting;
     sqldb.Query := sqldb.Query accepting;
     sqldb.QueryRow := sqldb.QueryRow accepting;
     sqldb.Begin := sqldb.Begin accepting;
     sqldb.Commit := λ tr t,
       match closings t tr with [] => None | _ => Some ErrTxDone end;
     sqldb.Rollback := λ tr t,
       match closings t tr with [] => None | _ => Some ErrTxDone end |}.

(** A callback that rolls the transaction back itself and reports no
    error. *)
Definition self_rollback : TxFunc :=
  Rollback finishing ;;; ret (VNil, None).



End spec.


(** ** The rest of the packages

    The functions of the source files that the development above did not
    need: the dialect registry, the log levels, the remaining record
    operations and the construction of an engine. *)

(** *** dialect.go: the registry *)

Module registry.
Import dialect.

(** [dialectsMap] is a package variable; the functions below take the
    map and return it. *)
Definition RegisterDialect (name : string) (d : Dialect)
    (dialectsMap : gmap string Dialect) : gmap string Dialect :=
  <[name := d]> dialectsMap.

(** [GetDialect]: [Some d] is [(d, true)], [None] is [(nil, false)]. *)
Definition GetDialect (name : string) (dialectsMap : gmap string Dialect)
    : option Dialect :=
  dialectsMap !! name.

(** The map once the [init] of sqlite3.go has run. *)
Definition init : gmap string Dialect :=
  RegisterDialect "sqlite3" sqlite3 ∅.

End registry.

(** *** log.go: the levels *)

Module log.

(** Where a logger writes: [os.Stdout] or [io.Discard]. *)
Inductive Writer := Stdout | Discard.

Global Instance Writer_eq_dec : EqDecision Writer.
Proof. solve_decision. Defined.

(** The two package loggers, as far as [SetLevel] changes them. *)
Record Loggers := mkLoggers {
  errorLog : Writer;
  infoLog : Writer
}.

(** Both loggers are made on [os.Stdout]. *)
Definition initial : Loggers := {| errorLog := Stdout; infoLog := Stdout |}.

Definition InfoLevel : Z := 0.
Definition ErrorLevel : Z := 1.
Definition Disabled : Z := 2.

(** [SetLevel]; the mutex is left out, the calls being taken one at a
    time. A level that is none of the three matches no case. *)
Definition SetLevel (level : Z) (l : Loggers) : Loggers :=
  if decide (level = InfoLevel) then
    {| errorLog := Stdout; infoLog := Stdout |}
  else if decide (level = ErrorLevel) then
    {| errorLog := Stdout; infoLog := Discard |}
  else if decide (level = Disabled) then
    {| errorLog := Discard; infoLog := Discard |}
  else l.

End log.

(** *** schema.go and record.go: the remaining record operations *)

Module record.
Import dialect schema sqldb session.

(** The loop of [Schema.RecordValues]: a name that is no field of the
    value gives the zero [reflect.Value], on which [Interface] panics. *)
Fixpoint RecordValues_loop (destvalue : instance) (fields : list Field)
    (fieldValues : list value) : outcome (list value) :=
  match fields with
  | [] => Ok fieldValues
  | field :: rest =>
      match destvalue !! Name field with
      | Some v => RecordValues_loop destvalue rest (fieldValues ++ [v])
      | None =>
          Panic (PanicValue
                   "reflect: call of reflect.Value.Interface on zero Value")
      end
  end.

Definition RecordValues (schema : Schema) (dest : instance)
    : outcome (list value) :=
  RecordValues_loop dest (Fields schema) [].

(** An argument of [Insert]: the value bound as model, and its fields. *)
Record record := mkRecord {
  rec_object : object;
  rec_fields : instance
}.

Section methods.
Context (R : MapRange) (D : Driver).

(** The loop [for _, value := range values] of [Insert]. *)
Fixpoint Insert_loop (values : list record) (recordValues : list value)
    : M State (list value) :=
  match values with
  | [] => ret recordValues
  | value :: rest =>
      Model (rec_object value) ;;;
      p <- RefTable ;;
      tables <- deref p ;;
      on_clause (clause.Set' R clause.INSERT
                   [VStr (TableName tables); VStrs (FieldNames tables)]) ;;;
      row <- lift (RecordValues tables (rec_fields value)) ;;
      Insert_loop rest (recordValues ++ [VSlice row])
  end.

Definition Insert (values : list record) : M State (Z * option error) :=
  recordValues <- Insert_loop values [] ;;
  on_clause (clause.Set' R clause.VALUES recordValues) ;;;
  q <- on_clause (clause.Build [clause.INSERT; clause.VALUES]) ;;
  Raw q.1 q.2 ;;;
  r <- Exec D ;;
  match r with
  | inr err => ret (0, Some err)
  | inl result => ret (RowsAffected result)
  end.

Definition Delete : M State (Z * option error) :=
  p <- RefTable ;;
  table <- deref p ;;
  on_clause (clause.Set' R clause.DELETE [VStr (TableName table)]) ;;;
  q <- on_clause (clause.Build [clause.DELETE; clause.WHERE]) ;;
  Raw q.1 q.2 ;;;
  r <- Exec D ;;
  match r with
  | inr err => ret (0, Some err)
  | inl result => ret (RowsAffected result)
  end.

(** [Count] scans the row into an [int64]; what that [Scan] gives is a
    second observation of the driver's row, [Scan_int64]. *)
Context (Scan_int64 : Row → Z + error).

Definition Count : M State (Z * option error) :=
  p <- RefTable ;;
  table <- deref p ;;
  on_clause (clause.Set' R clause.COUNT [VStr (TableName table)]) ;;;
  q <- on_clause (clause.Build [clause.COUNT; clause.WHERE]) ;;
  Raw q.1 q.2 ;;;
  row <- QueryRow D ;;
  match Scan_int64 row with
  | inr err => ret (0, Some err)
  | inl count => ret (count, None)
  end.

End methods.
End record.

(** *** geeorm.go: the construction of an engine *)

Module engine.
Import dialect sqldb geeorm.

Section NewEngine.
(** [sql.Open], [db.Ping] and the registry at the time of the call. *)
Context (Open : string → string → sqlDB + error)
        (Ping : sqlDB → option error)
        (dialectsMap : gmap string Dialect).

(** [NewEngine]: the results are named, and every failure is a bare
    [return] of what they hold. *)
Definition NewEngine (driverName dataSourceName : string)
    : option Engine * option error :=
  match Open driverName dataSourceName with
  | inr err => (None, Some err)
  | inl db =>
      match Ping db with
      | Some err => (None, Some err)
      | None =>
          match registry.GetDialect driverName dialectsMap with
          | None => (None, None)
          | Some dial => (Some {| db := db; dialect := dial |}, None)
          end
      end
  end.

End NewEngine.
End engine.

(** *** Vocabulary for the properties of these functions *)

Module spec_more.
Import dialect schema sqldb session geeorm spec.

(** The arguments of [Update] in its alternating form. *)
Definition alternating (pairs : list (string * value)) : list value :=
  concat ((λ kv : string * value, [VStr kv.1; kv.2]) <$> pairs).

(** Successive assignments [m[k] = v] into an empty map. *)
Definition assigned (pairs : list (string * value)) : gmap string value :=
  foldl (λ m kv, <[kv.1 := kv.2]> m) ∅ pairs.

(** The statement and the arguments a record operation hands to the
    driver: what is pending, then the operation's fragment [frag] with
    its parameters [vars], then the WHERE clause if one is set. *)
Definition statement (s : Session) (frag : string) (vars : list value)
    : string * list value :=
  ((sql s +:+ Join ([frag] ++ fragments (clause s) [clause.WHERE]) " ")
     +:+ " ",
   sqlVars s ++ vars ++ parameters (clause s) [clause.WHERE]).

(** Nothing of the session but its clause set differs. *)
Definition same_but_clause (s s' : Session) : Prop :=
  session.db s' = session.db s ∧ sql s' = sql s ∧ sqlVars s' = sqlVars s
  ∧ session.dialect s' = session.dialect s ∧ refTable s' = refTable s
  ∧ tx s' = tx s.

(** The three parts of a schema agree: the names are those of the
    columns, the map has an entry for exactly those names, and, the names
    being distinct, each column is found under its own name. *)
Definition consistent (s : Schema) : Prop :=
  FieldNames s = Name <$> Fields s
  ∧ (∀ name, fieldMap s !! name = None ↔ name ∉ FieldNames s)
  ∧ (NoDup (FieldNames s) →
     ∀ f, f ∈ Fields s → fieldMap s !! Name f = Some f).

(** The schema of [User] under the sqlite3 dialect. *)
Definition User_schema : Schema :=
  {| schema.Model := mkObject true User;
     TableName := "User";
     Fields := [ {| Name := "Name"; Type_ := "text"; Tag := "PRIMARY KEY" |};
                 {| Name := "Age"; Type_ := "integer"; Tag := "" |} ];
     FieldNames := ["Name"; "Age"];
     fieldMap :=
       {[ "Name" := {| Name := "Name"; Type_ := "text"; Tag := "PRIMARY KEY" |};
          "Age" := {| Name := "Age"; Type_ := "integer"; Tag := "" |} ]} |}.

(** A run of [SetLevel] calls from the loggers as made. *)
Definition levels_set (levels : list Z) : log.Loggers :=
  foldl (λ l level, log.SetLevel level l) log.initial levels.

(** A driver on which every statement fails. *)
Definition refusing : Driver :=
  {| sqldb.Exec := λ _ _ _ _, inr (DriverError "refused");
     sqldb.Query := λ _ _ _ _, inr (DriverError "refused");
     sqldb.QueryRow := λ _ _ _ _, mkRow (inr (DriverError "refused"));
     sqldb.Begin := λ _ _, inr (DriverError "refused");
     sqldb.Commit := λ _ _, Some (DriverError "refused");
     sqldb.Rollback := λ _ _, Some (DriverError "refused") |}.

(** Two users as [Insert] receives them. *)
Definition Tom : record.record :=
  record.mkRecord (mkObject true User)
                  {[ "Name" := VStr "Tom"; "Age" := VInt 18 ]}.
Definition Sam : record.record :=
  record.mkRecord (mkObject true User)
                  {[ "Name" := VStr "Sam"; "Age" := VInt 25 ]}.

(** A session of [engine0] bound to [User], and the same with a WHERE
    clause set. *)
Definition bound : State :=
  mkState (set_refTable (Some User_schema) (NewSession engine0)) [].

Definition bound_where : State :=
  (Where range_listed "Name = ?" [VStr "Tom"] bound).2.

(** The accepting driver with a table of three rows, of which the second
    does not scan. *)
Definition half_scanning : Driver :=
  {| sqldb.Exec := sqldb.Exec accepting;
     sqldb.Query := λ _ _ _ _,
       inl (mkRows (inl ["Name"; "Age"])
              [mkScanRow [VStr "Tom"; VInt 18] None;
               mkScanRow [VStr "Sam"; VNil]
                 (Some (DriverError "converting NULL to int is unsupported"));
               mkScanRow [VStr "Ann"; VInt 30] None] None);
     sqldb.QueryRow := sqldb.QueryRow accepting;
     sqldb.Begin := sqldb.Begin accepting;
     sqldb.Commit := sqldb.Commit accepting;
     sqldb.Rollback := sqldb.Rollback accepting |}.

(** The session of a transaction [t] of the engine [e] once [table] is
    bound. *)
Definition bound_in (e : Engine) (t : sqlTx) (table : Schema) : Session :=
  set_refTable (Some table) (set_tx (Some t) (NewSession e)).

(** The statements of a migration as the driver receives them: the one
    that adds the column [col], and the three that rebuild the table
    without the columns to drop, sent as one. *)
Definition add_column (table : Schema) (col : string) : string :=
  match GetField table col with
  | Some f => ("ALTER TABLE " +:+ TableName table +:+ " ADD COLUMN " +:+
               Name f +:+ " " +:+ Type_ f +:+ ";") +:+ " "
  | None => ""
  end.

Definition rebuild (table : Schema) : string :=
  ((((("CREATE TABLE " +:+ ("tmp_" +:+ TableName table) +:+ " AS SELECT " +:+
       Join (FieldNames table) ", " +:+ " from " +:+ TableName table +:+ ";")
      +:+ " ")
     +:+ ("DROP TABLE " +:+ TableName table +:+ ";")) +:+ " ")
   +:+ ("ALTER TABLE " +:+ ("tmp_" +:+ TableName table) +:+ " RENAME TO " +:+
        TableName table +:+ ";")) +:+ " ".

(** Statements without arguments executed one by one through [via]. *)
Definition execs (via : CommonDB) (qs : list string) : list event :=
  (λ q, EvExec via q []) <$> qs.

(** The accepting driver on a database without the table, on one where
    the query for the live columns fails, and on one whose table has the
    columns Name and Nick. *)
Definition no_table : Driver :=
  {| sqldb.Exec := sqldb.Exec accepting;
     sqldb.Query := sqldb.Query accepting;
     sqldb.QueryRow := λ _ _ _ _,
       mkRow (inr (ErrorsNew "sql: no rows in result set"));
     sqldb.Begin := sqldb.Begin accepting;
     sqldb.Commit := sqldb.Commit accepting;
     sqldb.Rollback := sqldb.Rollback accepting |}.

Definition no_query : Driver :=
  {| sqldb.Exec := sqldb.Exec accepting;
     sqldb.Query := λ _ _ _ _, inr (DriverError "database is locked");
     sqldb.QueryRow := sqldb.QueryRow accepting;
     sqldb.Begin := sqldb.Begin accepting;
     sqldb.Commit := sqldb.Commit accepting;
     sqldb.Rollback := sqldb.Rollback accepting |}.

Definition stale_table : Driver :=
  {| sqldb.Exec := sqldb.Exec accepting;
     sqldb.Query := λ _ _ _ _, inl (mkRows (inl ["Name"; "Nick"]) [] None);
     sqldb.QueryRow := sqldb.QueryRow accepting;
     sqldb.Begin := sqldb.Begin accepting;
     sqldb.Commit := sqldb.Commit accepting;
     sqldb.Rollback := sqldb.Rollback accepting |}.

(** A row that scans to the count 2, for any other row the scan fails. *)
Definition Scan_count (row : Row) : Z + error :=
  match Scan_string row with
  | inl "User" => inl 2
  | _ => inr (DriverError "converting driver.Value type")
  end.

End spec_more.


(** ** Verification: the clause builder *)

Module ClauseFacts.
Import spec.
Import clause.

Lemma map_read_default {V} (m : option (gmap Type' V)) (k : Type') :
  map_read m k = default ∅ m !! k.
Proof. destruct m; [done|]. simpl. by rewrite lookup_empty. Qed.

Lemma Build_loop_spec (c : Clause) (orders : list Type')
    (sqls : list string) (vars : list value) :
  Build_loop c orders sqls vars
  = (sqls ++ fragments c orders, vars ++ parameters c orders).
Proof.
  revert sqls vars. unfold fragments, parameters, present.
  induction orders as [|k orders IH]; intros sqls vars; simpl.
  - by rewrite !app_nil_r.
  - destruct (map_read (sql c) k) as [s|] eqn:Hk.
    + rewrite IH, filter_cons_True by (by rewrite Hk).
      simpl. by rewrite <- !app_assoc.
    + rewrite IH, filter_cons_False; [done|].
      rewrite Hk. by intros [? ?].
Qed.

Lemma Build_run (c : Clause) (orders : list Type') :
  Build orders c
  = (Ok (Join (fragments c orders) " ", parameters c orders), c).
Proof.
  unfold Build, bind, get, ret. by rewrite Build_loop_spec.
Qed.

(** What [Set'] does to a clause set whose two maps were made together. *)
Lemma Set'_run (R : MapRange) (name : Type') (vars : list value)
    (c : Clause) (r : string * list value) :
  clause_wf c →
  generators R name vars = Ok r →
  Set' R name vars c
  = (Ok tt, {| sql := Some (<[name := r.1]> (default ∅ (sql c)));
               sqlVars := Some (<[name := r.2]> (default ∅ (sqlVars c))) |}).
Proof.
  intros Hwf Hg. unfold Set', bind, get, put, ret, lift. simpl.
  destruct c as [[s|] [v|]]; unfold clause_wf in Hwf; simpl in *;
    rewrite ?Hg; simpl; try done.
  - destruct Hwf as [_ Hwf]. by specialize (Hwf eq_refl).
  - destruct Hwf as [Hwf _]. by specialize (Hwf eq_refl).
Qed.

Lemma Set'_wf (R : MapRange) (name : Type') (vars : list value) (c : Clause) :
  clause_wf c → clause_wf (Set' R name vars c).2.
Proof.
  intros Hwf. unfold Set', bind, get, put, ret, lift. simpl.
  destruct c as [[s|] [v|]]; unfold clause_wf in *; simpl in *;
    destruct (generators R name vars); simpl; try done.
  all: destruct Hwf as [_ Hwf]; by specialize (Hwf eq_refl).
Qed.

(** C5. The four clauses of the test, set in any order on an empty clause
    set, build to the expected statement and parameters; and on any clause
    set [Build] joins with single spaces the fragments of the kinds that
    have an entry, in the order given, and concatenates their parameters
    in that order. *)
Theorem Build_select_where_orderby_limit (R : MapRange)
    (ops : list (Type' * list value)) :
  ops ≡ₚ [(SELECT, [VStr "User"; VStrs ["*"]]);
          (WHERE, [VStr "Name = ?"; VStr "Tom"]);
          (ORDERBY, [VStr "Age DESC"]);
          (LIMIT, [VInt 3])] →
  ((Sets R ops ;;; Build [SELECT; WHERE; ORDERBY; LIMIT]) zero).1
  = Ok ("SELECT * FROM User WHERE Name = ? ORDER BY Age DESC LIMIT ?",
        [VStr "Tom"; VInt 3])
  ∧ ∀ (c : Clause) (orders : list Type'),
      Build orders c
      = (Ok (Join (fragments c orders) " ", parameters c orders), c).
Proof.
  intros Hperm. split; [|apply Build_run].
  symmetry in Hperm. apply permutations_Permutation in Hperm.
  vm_compute in Hperm.
  repeat (apply elem_of_cons in Hperm as [-> | Hperm]; [reflexivity|]).
  by apply elem_of_nil in Hperm.
Qed.

Lemma Build_select_where_orderby_limit_witness :
  [(LIMIT, [VInt 3]);
   (SELECT, [VStr "User"; VStrs ["*"]]);
   (WHERE, [VStr "Name = ?"; VStr "Tom"]);
   (ORDERBY, [VStr "Age DESC"])]
  ≡ₚ [(SELECT, [VStr "User"; VStrs ["*"]]);
      (WHERE, [VStr "Name = ?"; VStr "Tom"]);
      (ORDERBY, [VStr "Age DESC"]);
      (LIMIT, [VInt 3])]
  ∧ ((Sets range_listed
        [(LIMIT, [VInt 3]);
         (SELECT, [VStr "User"; VStrs ["*"]]);
         (WHERE, [VStr "Name = ?"; VStr "Tom"]);
         (ORDERBY, [VStr "Age DESC"])] ;;;
      Build [SELECT; WHERE; ORDERBY; LIMIT]) zero).1
    = Ok ("SELECT * FROM User WHERE Name = ? ORDER BY Age DESC LIMIT ?",
          [VStr "Tom"; VInt 3]).
Proof.
  assert (Hp : [(LIMIT, [VInt 3]);
                (SELECT, [VStr "User"; VStrs ["*"]]);
                (WHERE, [VStr "Name = ?"; VStr "Tom"]);
                (ORDERBY, [VStr "Age DESC"])]
               ≡ₚ [(SELECT, [VStr "User"; VStrs ["*"]]);
                   (WHERE, [VStr "Name = ?"; VStr "Tom"]);
                   (ORDERBY, [VStr "Age DESC"]);
                   (LIMIT, [VInt 3])])
    by apply (Permutation_cons_append [_; _; _] _).
  split; [exact Hp|].
  exact (proj1 (Build_select_where_orderby_limit range_listed _ Hp)).
Defined.

Lemma _update_loop_spec (entries : list (string * value))
    (keys : list string) (vars : list value) :
  _update_loop entries keys vars
  = (keys ++ ((λ k, k +:+ " = ?") <$> entries.*1), vars ++ entries.*2).
Proof.
  revert keys vars. induction entries as [|[k v] entries IH];
    intros keys vars; simpl.
  - by rewrite !app_nil_r.
  - rewrite IH. by rewrite <- !app_assoc.
Qed.

(** C8. For a table name [t] and a map [m], whatever order the range
    statement yields, [_update] returns ["UPDATE t SET k1 = ?, ..., kn = ?"]
    for a permutation [k1 .. kn] of the keys of [m], and [n] parameters,
    the [i]-th being [m[ki]]. *)
Theorem update_pairs_columns_with_values (R : MapRange) (t : string)
    (m : gmap string value) :
  ∃ (ks : list string) (vars : list value),
    _update R [VStr t; VMap m]
    = Ok ("UPDATE " +:+ t +:+ " SET " +:+
          Join ((λ k, k +:+ " = ?") <$> ks) ", ", vars)
    ∧ ks ≡ₚ (map_to_list m).*1
    ∧ length ks = size m
    ∧ length vars = length ks
    ∧ ∀ (i : nat) (k : string),
        ks !! i = Some k → is_Some (m !! k) ∧ vars !! i = m !! k.
Proof.
  exists (range_of R m).*1, (range_of R m).*2.
  pose proof (range_of_perm R m) as Hperm.
  split; [|split; [|split; [|split]]].
  - unfold _update. simpl. by rewrite _update_loop_spec.
  - by rewrite Hperm.
  - by rewrite Hperm, length_fmap, length_map_to_list.
  - by rewrite !length_fmap.
  - intros i k Hi. rewrite list_lookup_fmap in Hi.
    destruct (range_of R m !! i) as [[k' v]|] eqn:He; simplify_eq/=.
    assert ((k, v) ∈ map_to_list m) as Hin.
    { rewrite <- Hperm. by eapply list_elem_of_lookup_2. }
    apply elem_of_map_to_list in Hin.
    rewrite list_lookup_fmap, He, Hin. eauto.
Qed.

(** The statement text does depend on the order: the same map under two
    iteration orders. The parameters follow the columns in both. *)
Lemma update_order_varies :
  let m : gmap string value := {[ "Name" := VStr "Tom"; "Age" := VInt 18 ]} in
  _update range_listed [VStr "User"; VMap m]
  = Ok ("UPDATE User SET Age = ?, Name = ?", [VInt 18; VStr "Tom"])
  ∧ _update range_reversed [VStr "User"; VMap m]
    = Ok ("UPDATE User SET Name = ?, Age = ?", [VStr "Tom"; VInt 18]).
Proof. split; reflexivity. Qed.

(** C7, as the specification words it, fails: after [Build] has
    assembled the SELECT clause, the clause set still holds its fragment
    and its parameters. *)
Lemma Build_keeps_entries :
  let c := (Set' range_listed SELECT [VStr "User"; VStrs ["*"]] zero).2 in
  map_read (sql (Build [SELECT] c).2) SELECT = Some "SELECT * FROM User"
  ∧ map_read (sqlVars (Build [SELECT] c).2) SELECT = Some [].
Proof. split; reflexivity. Qed.

(** C7, amended. [Build] returns and leaves the clause set as it found
    it, so building again gives the same statement; the entries go when
    the session runs [Clear]. *)
Theorem Build_reads_only (c : Clause) (orders : list Type') :
  (∃ r, Build orders c = (Ok r, c)
        ∧ (Build orders ;;; Build orders) c = (Ok r, c))
  ∧ ∀ st : session.State,
      session.clause (session.sess (session.Clear st).2) = zero.
Proof.
  split; [|reflexivity].
  eexists. split; [apply Build_run|].
  unfold bind. by rewrite !Build_run.
Qed.

End ClauseFacts.

(** ** Verification: the schema reflector *)

Module SchemaFacts.
Import dialect schema spec.

Lemma Parse_loop_spec (d : Dialect) (fields : list StructField) :
  ∀ s0 : Schema,
    (∀ p, p ∈ fields → is_column p = true →
          ∃ ty, DataTypeOf d (sf_Type p) = Ok ty) →
    ∃ (s : Schema) (cols : list Field),
      Parse_loop d fields s0 = Ok s
      ∧ Model s = Model s0 ∧ TableName s = TableName s0
      ∧ Fields s = Fields s0 ++ cols
      ∧ FieldNames s = FieldNames s0 ++ (Name <$> cols)
      ∧ Forall2 (derives d) (filter (λ p, is_column p) fields) cols
      ∧ dom (fieldMap s) = dom (fieldMap s0) ∪ list_to_set (Name <$> cols).
Proof.
  induction fields as [|p fields IH]; intros s0 Hmap; simpl.
  - exists s0, []. rewrite !app_nil_r. simpl.
    repeat split; try done. by rewrite (right_id_L ∅ (∪)).
  - destruct (is_column p) eqn:Hp.
    + destruct (Hmap p) as [ty Hty]; [left | done |]. rewrite Hty. simpl.
      edestruct IH as (s & cols & Hrun & Hm & Hn & Hf & Hfn & Hall & Hdom).
      { intros q Hq. apply Hmap. by right. }
      exists s, (column_of p ty :: cols). rewrite Hrun.
      rewrite filter_cons_True by (by rewrite Hp).
      assert (column_of p ty =
              match sf_Tag p with
              | Some v => {| Name := sf_Name p; Type_ := ty; Tag := v |}
              | None => {| Name := sf_Name p; Type_ := ty; Tag := "" |}
              end) as Hcol by (unfold column_of; by destruct (sf_Tag p)).
      rewrite <- Hcol in *. simpl in *.
      repeat split; try done.
      * by rewrite Hf, <- app_assoc.
      * by rewrite Hfn, <- app_assoc.
      * by constructor.
      * rewrite Hdom, dom_insert_L. simpl.
        rewrite (comm_L (∪) {[sf_Name p]} (dom (fieldMap s0))).
        by rewrite <- (assoc_L (∪)).
    + rewrite filter_cons_False by (rewrite Hp; intros []).
      apply IH. intros q Hq. apply Hmap. by right.
Qed.

Lemma derives_names (d : Dialect) (ps : list StructField) (cols : list Field) :
  Forall2 (derives d) ps cols → Name <$> cols = sf_Name <$> ps.
Proof.
  induction 1 as [|p f ps cols [_ Hf] _ IH]; [done|].
  rewrite !fmap_cons, IH. f_equal. by rewrite Hf.
Qed.

(** [Parse] succeeds on a mapped type; the table is named after the type
    and its column names are the names of the column fields. *)
Lemma Parse_mapped (d : Dialect) (dest : object) :
  mapped d (obj_Type dest) →
  ∃ s : Schema,
    Parse dest d = Ok s
    ∧ TableName s = st_Name (obj_Type dest)
    ∧ FieldNames s
      = sf_Name <$> filter (λ p, is_column p) (st_Fields (obj_Type dest)).
Proof.
  intros Hmap. unfold Parse.
  edestruct (Parse_loop_spec d (st_Fields (obj_Type dest)))
    as (s & cols & Hrun & _ & Hn & _ & Hfn & Hall & _); [exact Hmap|].
  exists s. cbn [FieldNames TableName] in Hn, Hfn.
  rewrite Hrun, Hn, Hfn. simpl. by rewrite (derives_names d _ _ Hall).
Qed.

(** [IsExported] looks at the first rune, not the first byte: a name that
    begins with an upper-case letter outside ASCII is exported, and a name
    that is empty or begins with a byte that starts no rune is not. *)
Lemma IsExported_first_rune :
  IsExported "Name" = true ∧ IsExported "name" = false
  ∧ IsExported "Ñame" = true ∧ IsExported "ñame" = false
  ∧ IsExported "Δx" = true ∧ IsExported "_Name" = false
  ∧ IsExported "" = false
  ∧ IsExported (String.String (Ascii.ascii_of_nat 195) "A") = false.
Proof. by vm_compute. Qed.

(** C6, as the specification words it, fails: a struct with one exported,
    non-embedded field of a map type gets no schema from the sqlite3
    dialect; [Parse] panics. *)
Lemma Parse_unmapped_field_panics :
  length (filter (λ p, is_column p) (st_Fields Tagged)) = 1%nat
  ∧ Parse (mkObject true Tagged) sqlite3
    = Panic (PanicValue "invalid sql type  (map)").
Proof. split; reflexivity. Qed.

(** C6, amended. When the dialect has a storage type for every exported,
    non-embedded field, [Parse] returns a schema whose columns are those
    fields in declaration order, one each and none for the other fields,
    whose [FieldNames] are the columns' names index by index, and whose
    name map has exactly those names as keys. *)
Theorem Parse_columns (d : Dialect) (dest : object) :
  mapped d (obj_Type dest) →
  ∃ s : Schema,
    Parse dest d = Ok s
    ∧ Forall2 (derives d)
              (filter (λ p, is_column p) (st_Fields (obj_Type dest)))
              (Fields s)
    ∧ length (Fields s)
      = length (filter (λ p, is_column p) (st_Fields (obj_Type dest)))
    ∧ (∀ i : nat, FieldNames s !! i = Name <$> Fields s !! i)
    ∧ dom (fieldMap s) = list_to_set (Name <$> Fields s).
Proof.
  intros Hmap. unfold Parse.
  edestruct (Parse_loop_spec d (st_Fields (obj_Type dest)))
    as (s & cols & Hrun & _ & _ & Hf & Hfn & Hall & Hdom); [exact Hmap|].
  exists s. cbn [Fields FieldNames fieldMap] in Hf, Hfn, Hdom.
  rewrite Hrun, Hf, Hfn, Hdom. simpl.
  repeat split; try done.
  - symmetry. by eapply Forall2_length.
  - intros i. by rewrite list_lookup_fmap.
  - by rewrite dom_empty_L, (left_id_L ∅ (∪)).
Qed.

Lemma User_mapped : mapped sqlite3 User.
Proof.
  intros p Hp _. unfold User in Hp. simpl in Hp.
  repeat (apply elem_of_cons in Hp as [-> | Hp]; [by eexists|]).
  by apply elem_of_nil in Hp.
Defined.

Lemma Parse_columns_witness :
  mapped sqlite3 User
  ∧ ∃ s : Schema,
      Parse (mkObject true User) sqlite3 = Ok s
      ∧ length (Fields s) = 2%nat
      ∧ FieldNames s = ["Name"; "Age"].
Proof.
  split; [exact User_mapped|].
  destruct (Parse_columns sqlite3 (mkObject true User) User_mapped)
    as (s & Hrun & _ & Hlen & _).
  exists s. split; [exact Hrun|]. split; [exact Hlen|].
  vm_compute in Hrun. by injection Hrun as <-.
Defined.

End SchemaFacts.

(** ** Verification: statement execution *)

Module SessionFacts.
Import dialect schema sqldb session geeorm spec.

Lemma Clear_run (st : State) :
  Clear st =
    (Ok tt,
     mkState (mkSession (session.db (sess st)) "" [] (session.dialect (sess st))
                        (refTable (sess st)) clause.zero (tx (sess st)))
             (trace st)).
Proof. reflexivity. Qed.

Lemma Exec_run (D : Driver) (st : State) :
  Exec D st =
    (Ok (sqldb.Exec D (trace st) (DB (sess st)) (sql (sess st))
                    (sqlVars (sess st))),
     mkState (mkSession (session.db (sess st)) "" [] (session.dialect (sess st))
                        (refTable (sess st)) clause.zero (tx (sess st)))
             (trace st ++ [EvExec (DB (sess st)) (sql (sess st))
                                  (sqlVars (sess st))])).
Proof. reflexivity. Qed.

Lemma QueryRow_run (D : Driver) (st : State) :
  QueryRow D st =
    (Ok (sqldb.QueryRow D (trace st) (ViaDB (session.db (sess st)))
                        (sql (sess st)) (sqlVars (sess st))),
     mkState (mkSession (session.db (sess st)) "" [] (session.dialect (sess st))
                        (refTable (sess st)) clause.zero (tx (sess st)))
             (trace st ++ [EvQueryRow (ViaDB (session.db (sess st)))
                                      (sql (sess st)) (sqlVars (sess st))])).
Proof. reflexivity. Qed.

Lemma QueryRows_run (D : Driver) (st : State) :
  QueryRows D st =
    (Ok (sqldb.Query D (trace st) (DB (sess st)) (sql (sess st))
                     (sqlVars (sess st))),
     mkState (mkSession (session.db (sess st)) "" [] (session.dialect (sess st))
                        (refTable (sess st)) clause.zero (tx (sess st)))
             (trace st ++ [EvQuery (DB (sess st)) (sql (sess st))
                                   (sqlVars (sess st))])).
Proof. reflexivity. Qed.

(** [session_wf] holds of a new session and is kept by the methods. *)
Lemma New_wf (db : sqlDB) (d : Dialect) : session_wf (session.New db d).
Proof. split; [done | discriminate]. Qed.

Lemma Parse_loop_Model (d : Dialect) (fields : list StructField) :
  ∀ s0 t, Parse_loop d fields s0 = Ok t → schema.Model t = schema.Model s0.
Proof.
  induction fields as [|p fields IH]; intros s0 t; simpl.
  - by intros [= ->].
  - destruct (is_column p); [|apply IH].
    destruct (DataTypeOf d (sf_Type p)); [|discriminate]. simpl.
    intros H. by apply IH in H.
Qed.

Lemma Model_wf (value : object) (st : State) :
  session_wf (sess st) → session_wf (sess (Model value st).2).
Proof.
  intros Hst. pose proof Hst as [Hc Hwf].
  assert (∀ t, Parse value (session.dialect (sess st)) = Ok t →
               session_wf (set_refTable (Some t) (sess st))) as Hnew.
  { intros t Ht. split; [done|]. simpl. intros t' [= <-].
    by rewrite (Parse_loop_Model _ _ _ _ Ht). }
  unfold Model, bind, get, lift, update, modify. simpl.
  destruct (refTable (sess st)) as [t|].
  - destruct (decide (value ≠ schema.Model t)); [|done].
    destruct (Parse value _) eqn:Hp; simpl; [by apply Hnew | done].
  - destruct (Parse value _) eqn:Hp; simpl; [by apply Hnew | done].
Qed.

Lemma on_clause_wf (R : MapRange) (name : clause.Type') (vars : list value)
    (st : State) :
  session_wf (sess st) →
  session_wf (sess (on_clause (clause.Set' R name vars) st).2).
Proof.
  intros [Hc Hwf]. unfold on_clause.
  pose proof (ClauseFacts.Set'_wf R name vars _ Hc) as Hc'.
  destruct (clause.Set' R name vars (clause (sess st))) as [o c].
  by split.
Qed.

Lemma Raw_wf (q : string) (values : list value) (st : State) :
  session_wf (sess st) → session_wf (sess (Raw q values st).2).
Proof. by intros [Hc Hwf]. Qed.

Lemma Exec_wf (D : Driver) (st : State) :
  session_wf (sess st) → session_wf (sess (Exec D st).2).
Proof. intros [_ Hwf]. by split. Qed.

Lemma QueryRow_wf (D : Driver) (st : State) :
  session_wf (sess st) → session_wf (sess (QueryRow D st).2).
Proof. intros [_ Hwf]. by split. Qed.

Lemma QueryRows_wf (D : Driver) (st : State) :
  session_wf (sess st) → session_wf (sess (QueryRows D st).2).
Proof. intros [_ Hwf]. by split. Qed.

Lemma Begin_wf (D : Driver) (st : State) :
  session_wf (sess st) → session_wf (sess (Begin D st).2).
Proof.
  intros [Hc Hwf]. unfold Begin, bind, get, emit, modify. simpl.
  by destruct (sqldb.Begin D (trace st) (session.db (sess st))).
Qed.

(** C3. [Exec], [QueryRow] and [QueryRows] each return what the driver
    answers, a result or an error, and each leaves the session with an
    empty statement buffer, no parameters and the empty clause set. *)
Theorem execution_clears (D : Driver) (st : State) :
  (∃ r, (Exec D st).1 = Ok r) ∧ cleared (sess (Exec D st).2)
  ∧ (∃ r, (QueryRow D st).1 = Ok r) ∧ cleared (sess (QueryRow D st).2)
  ∧ (∃ r, (QueryRows D st).1 = Ok r) ∧ cleared (sess (QueryRows D st).2).
Proof.
  rewrite Exec_run, QueryRow_run, QueryRows_run. unfold cleared. simpl.
  repeat split; eauto.
Qed.

(** C1. In a session whose transaction handle is set, [Exec] and
    [QueryRows] call the driver through the transaction, and [QueryRow]
    calls it through the plain connection. *)
Theorem QueryRow_bypasses_tx (D : Driver) (s : Session) (tr : list event)
    (t : sqlTx) :
  let st := mkState (set_tx (Some t) s) tr in
  trace (Exec D st).2 = tr ++ [EvExec (ViaTx t) (sql s) (sqlVars s)]
  ∧ trace (QueryRows D st).2 = tr ++ [EvQuery (ViaTx t) (sql s) (sqlVars s)]
  ∧ trace (QueryRow D st).2
    = tr ++ [EvQueryRow (ViaDB (session.db s)) (sql s) (sqlVars s)].
Proof. repeat split. Qed.

(** An odd number of arguments cannot be paired: the loop panics, on a key
    that is no string or on the missing last value. *)
Lemma Update_pairs_odd (n : nat) (rest : list value) :
  ∀ (i : nat) (m : gmap string value),
    Nat.Odd (length rest) →
    ∃ j, Update_pairs n i rest m = Panic (TypeAssertion "string")
         ∨ Update_pairs n i rest m = Panic (IndexOutOfRange j n).
Proof.
  induction rest as [rest IH] using (induction_ltof1 _ (@length value)).
  unfold ltof in IH. intros i m Hodd.
  destruct rest as [|k [|v rest]]; simpl in *.
  - destruct Hodd as [x Hx]. lia.
  - exists (i + 1)%nat. destruct k; simpl; auto.
  - destruct k; simpl; try (exists 0%nat; by left).
    apply IH; [lia|]. destruct Hodd as [x Hx]. exists (x - 1)%nat. lia.
Qed.

(** C10. [Update] with no argument panics on [kv[0]]; [Update] with an odd
    number of arguments whose first is no map panics in the pairing loop.
    Neither returns an error value, and neither touches the session or the
    driver. *)
Theorem Update_panics (R : MapRange) (D : Driver) (st : State) :
  Update R D [] st = (Panic (IndexOutOfRange 0 0), st)
  ∧ ∀ kv0 rest,
      (∀ m, kv0 ≠ VMap m) → Nat.Even (length rest) →
      ∃ p, Update_pairs (length (kv0 :: rest)) 0 (kv0 :: rest) ∅ = Panic p
           ∧ Update R D (kv0 :: rest) st = (Panic p, st)
           ∧ (p = TypeAssertion "string"
              ∨ ∃ j, p = IndexOutOfRange j (length (kv0 :: rest))).
Proof.
  split; [reflexivity|]. intros kv0 rest Hmap Heven.
  destruct (Update_pairs_odd (length (kv0 :: rest)) (kv0 :: rest) 0 ∅)
    as [j Hp].
  { destruct Heven as [x Hx]. exists x. simpl. lia. }
  assert (∃ p, Update_pairs (length (kv0 :: rest)) 0 (kv0 :: rest) ∅ = Panic p
               ∧ (p = TypeAssertion "string"
                  ∨ ∃ j, p = IndexOutOfRange j (length (kv0 :: rest))))
    as (p & Hp' & Hkind) by (destruct Hp; eauto).
  exists p. split; [done|]. split; [|done].
  unfold Update, bind, lift, index. simpl lookup. cbv beta iota.
  destruct kv0; try (by rewrite Hp'). by destruct (Hmap m).
Qed.

Lemma Update_panics_witness :
  (∀ m, VStr "Age" ≠ VMap m) ∧ Nat.Even (length (@nil value))
  ∧ ∃ p, Update range_listed accepting [VStr "Age"] fresh = (Panic p, fresh).
Proof.
  assert (H1 : ∀ m, VStr "Age" ≠ VMap m) by (intros m; discriminate).
  assert (H2 : Nat.Even (length (@nil value))) by (exists 0%nat; reflexivity).
  split; [exact H1|]. split; [exact H2|].
  destruct (proj2 (Update_panics range_listed accepting fresh) (VStr "Age") []
              H1 H2) as (p & _ & Hp & _).
  exists p. exact Hp.
Defined.

End SessionFacts.

(** ** Verification: the transaction wrapper and the migration *)

Module EngineFacts.
Import dialect schema sqldb session geeorm spec.
Local Open Scope nat_scope.

Lemma Begin_run (D : Driver) (s : Session) (tr : list event) :
  Begin D (mkState s tr)
  = match sqldb.Begin D tr (session.db s) with
    | inl t => (Ok None, mkState (set_tx (Some t) s)
                                 (tr ++ [EvBegin (session.db s)]))
    | inr e => (Ok (Some e), mkState (set_tx None s)
                                     (tr ++ [EvBegin (session.db s)]))
    end.
Proof.
  unfold Begin, bind, get, emit, modify. simpl.
  by destruct (sqldb.Begin D tr (session.db s)).
Qed.

Lemma Commit_run (D : Driver) (st : State) (t : sqlTx) :
  tx (sess st) = Some t →
  Commit D st = (Ok (sqldb.Commit D (trace st) t),
                 mkState (sess st) (trace st ++ [EvCommit t])).
Proof. intros H. unfold Commit, bind, get. simpl. by rewrite H. Qed.

Lemma Rollback_run (D : Driver) (st : State) (t : sqlTx) :
  tx (sess st) = Some t →
  Rollback D st = (Ok (sqldb.Rollback D (trace st) t),
                   mkState (sess st) (trace st ++ [EvRollback t])).
Proof. intros H. unfold Rollback, bind, get. simpl. by rewrite H. Qed.

(** X26. When [Begin] fails no transaction is open: the wrapper returns
    the error and calls neither the callback nor the driver again. *)
Lemma Transaction_begin_fails (D : Driver) (e : Engine) (f : TxFunc)
    (tr : list event) (err : error) :
  sqldb.Begin D tr (db e) = inr err →
  Transaction D e f tr = (Ok (VNil, Some err), tr ++ [EvBegin (db e)]).
Proof.
  intros Hbegin. unfold Transaction, with_session, bind. rewrite Begin_run.
  change (session.db (NewSession e)) with (db e). by rewrite Hbegin.
Qed.

(** C4, as the specification words it, fails on a callback that makes a
    transaction call of its own on the session. One that begins a
    transaction makes the wrapper commit that one: the transaction the
    wrapper opened gets no [Commit] and no [Rollback]. One that rolls the
    transaction back and reports no error makes the wrapper call [Commit]
    on the finished transaction: it gets two closing calls and is not
    committed. *)
Lemma callback_with_transaction_calls :
  sqldb.Begin accepting [] (db engine0) = inl 0
  ∧ Transaction accepting engine0 nested_begin []
    = (Ok (VNil, None), [EvBegin 7; EvBegin 7; EvCommit 1])
  ∧ closings 0 [EvBegin 7; EvBegin 7; EvCommit 1] = []
  ∧ sqldb.Begin finishing [] (db engine0) = inl 0
  ∧ Transaction finishing engine0 self_rollback []
    = (Ok (VNil, Some ErrTxDone), [EvBegin 7; EvRollback 0; EvCommit 0])
  ∧ closings 0 [EvBegin 7; EvRollback 0; EvCommit 0]
    = [EvRollback 0; EvCommit 0].
Proof. repeat split. Qed.

Lemma closings_snoc (t : sqlTx) (tr : list event) (ev : event) :
  closings t (tr ++ [ev]) = closings t tr ++ (if closes t ev then [ev] else []).
Proof.
  unfold closings. rewrite filter_app. f_equal.
  destruct (closes t ev) eqn:Hev.
  - rewrite filter_cons_True; [done|]. by apply Is_true_true.
  - rewrite filter_cons_False; [done|]. by apply Is_true_false.
Qed.

(** C4, amended. Let the wrapper's [Begin] open the transaction [t], and
    let the callback make no transaction call of its own: when it exits
    the session's handle is on [t], and no [Commit] and no [Rollback] of
    [t] has been called. If the callback panics, the wrapper rolls [t]
    back and panics with the same value; if it returns an error, the
    wrapper rolls [t] back and returns that error; otherwise it commits
    [t] and returns what the commit returns. On each path the whole run
    holds exactly one call that closes [t]: that [Rollback], or that
    [Commit]. *)
Theorem Transaction_closes (D : Driver) (e : Engine) (f : TxFunc)
    (tr : list event) (t : sqlTx) :
  sqldb.Begin D tr (db e) = inl t →
  let st1 := mkState (set_tx (Some t) (NewSession e)) (tr ++ [EvBegin (db e)]) in
  tx (sess (f st1).2) = Some t →
  closings t (trace (f st1).2) = [] →
  Transaction D e f tr
  = match (f st1).1 with
    | Panic p => (Panic p, trace (f st1).2 ++ [EvRollback t])
    | Ok (result, Some err) =>
        (Ok (result, Some err), trace (f st1).2 ++ [EvRollback t])
    | Ok (result, None) =>
        (Ok (result, sqldb.Commit D (trace (f st1).2) t),
         trace (f st1).2 ++ [EvCommit t])
    end
  ∧ closings t (Transaction D e f tr).2
    = [match (f st1).1 with
       | Ok (_, None) => EvCommit t
       | _ => EvRollback t
       end].
Proof.
  intros Hbegin st1 Hkeep Hnone.
  assert (Transaction D e f tr
          = match (f st1).1 with
            | Panic p => (Panic p, trace (f st1).2 ++ [EvRollback t])
            | Ok (result, Some err) =>
                (Ok (result, Some err), trace (f st1).2 ++ [EvRollback t])
            | Ok (result, None) =>
                (Ok (result, sqldb.Commit D (trace (f st1).2) t),
                 trace (f st1).2 ++ [EvCommit t])
            end) as Hrun.
  { unfold Transaction, with_session, bind. rewrite Begin_run.
    change (session.db (NewSession e)) with (db e). rewrite Hbegin.
    unfold defer_recover. fold st1.
    destruct (f st1) as [[[result [err|]]|p] st2] eqn:Hf; simpl in *.
    - by rewrite (Rollback_run D st2 t Hkeep).
    - by rewrite (Commit_run D st2 t Hkeep).
    - unfold throw. by rewrite (Rollback_run D st2 t Hkeep). }
  split; [exact Hrun|]. rewrite Hrun.
  destruct ((f st1).1) as [[result [err|]]|p]; simpl;
    rewrite closings_snoc, Hnone; simpl; by rewrite bool_decide_eq_true_2.
Qed.

Lemma Transaction_closes_witness :
  sqldb.Begin accepting [] (db engine0) = inl 0
  ∧ tx (sess (create_user
                (mkState (set_tx (Some 0) (NewSession engine0))
                         ([] ++ [EvBegin (db engine0)]))).2) = Some 0
  ∧ closings 0 (trace (create_user
                         (mkState (set_tx (Some 0) (NewSession engine0))
                                  ([] ++ [EvBegin (db engine0)]))).2) = []
  ∧ (Transaction accepting engine0 create_user []).1 = Ok (VNil, None)
  ∧ closings 0 (Transaction accepting engine0 create_user []).2 = [EvCommit 0].
Proof.
  split; [reflexivity|]. split; [reflexivity|]. split; [reflexivity|].
  destruct (Transaction_closes accepting engine0 create_user [] 0
              eq_refl eq_refl eq_refl) as [Hrun Hclose].
  split; [by rewrite Hrun | exact Hclose].
Defined.

(** Inside [Migrate] the existence check of [HasTable] goes through
    [QueryRow], hence around the transaction that [Migrate] opened. *)
Lemma Migrate_HasTable_outside_tx :
  (Migrate accepting engine0 (mkObject true User) []).2
  = [EvBegin 7;
     EvQueryRow (ViaDB 7)
       "SELECT name FROM sqlite_master WHERE type='table' and name = ? "
       [VStr "User"];
     EvQuery (ViaTx 0) "SELECT * FROM User LIMIT 1 " [];
     EvCommit 0].
Proof. reflexivity. Qed.

Lemma seen_lookup (b : list string) (m : gmap string bool) (s : string) :
  foldl (λ (m : gmap string bool) s, <[s := true]> m) m b !! s = None
  ↔ m !! s = None ∧ s ∉ b.
Proof.
  revert m. induction b as [|x b IH]; intros m; simpl.
  - split; [intros H; split; [done | apply not_elem_of_nil] | by intros [? _]].
  - rewrite IH, lookup_insert_None, not_elem_of_cons.
    split; [intros [[? ?] ?] | intros (? & ? & ?)]; repeat split; auto.
Qed.

Lemma difference_loop (m : gmap string bool) (a diff : list string) :
  foldl (λ (diff : list string) s,
           match m !! s with Some _ => diff | None => diff ++ [s] end) diff a
  = diff ++ filter (λ s, m !! s = None) a.
Proof.
  revert diff. induction a as [|x a IH]; intros diff; simpl.
  - by rewrite app_nil_r.
  - rewrite IH. destruct (m !! x) eqn:Hx.
    + rewrite filter_cons_False; [done | by rewrite Hx].
    + rewrite filter_cons_True by done. by rewrite <- app_assoc.
Qed.

Lemma difference_filter (a b : list string) :
  difference a b = filter (λ s, s ∉ b) a.
Proof.
  unfold difference. rewrite difference_loop. simpl.
  apply list_filter_iff. intros s. rewrite seen_lookup, lookup_empty.
  split; [by intros [_ ?] | done].
Qed.

(** C2. The migration takes [addCols] as the declared column names that
    are not live, and [delCols] as the live names that are not declared,
    each in the order of its first operand; [difference a b] is [a]
    filtered by absence from [b]. *)
Theorem Migrate_cols_spec (table : Schema) (columns : list string) :
  Migrate_cols table columns =
    (filter (λ s, s ∉ columns) (FieldNames table),
     filter (λ s, s ∉ FieldNames table) columns)
  ∧ ∀ a b : list string, difference a b = filter (λ s, s ∉ b) a.
Proof.
  split; [|apply difference_filter].
  unfold Migrate_cols. by rewrite !difference_filter.
Qed.

End EngineFacts.

(** ** Verification: Find and First *)

Module FirstFacts.
Import dialect schema sqldb session geeorm spec.

Local Arguments fragments : simpl never.
Local Arguments parameters : simpl never.
Local Arguments clause_with : simpl never.
Local Arguments Join : simpl never.
Local Arguments String.append : simpl never.

Lemma on_clause_Set' (R : MapRange) (name : clause.Type') (vars : list value)
    (st : State) (r : string * list value) :
  clause_wf (clause (sess st)) →
  clause.generators R name vars = Ok r →
  on_clause (clause.Set' R name vars) st
  = (Ok tt, mkState (set_clause (clause_with (clause (sess st)) name r.1 r.2)
                                (sess st)) (trace st)).
Proof.
  intros Hwf Hg. unfold on_clause.
  by rewrite (ClauseFacts.Set'_run R name vars _ r Hwf Hg).
Qed.

Lemma clause_with_wf (c : clause.Clause) (name : clause.Type')
    (frag : string) (vars : list value) :
  clause_wf (clause_with c name frag vars).
Proof. unfold clause_wf, clause_with. simpl. split; discriminate. Qed.

Lemma Model_run (value : object) (st : State) (table : Schema) :
  session_wf (sess st) →
  Parse value (session.dialect (sess st)) = Ok table →
  Model value st
  = (Ok tt, mkState (set_refTable (Some table) (sess st)) (trace st)).
Proof.
  intros [_ Hwf] Hparse. unfold Model, bind, get, lift, update, modify. simpl.
  destruct (refTable (sess st)) as [t|] eqn:Ht.
  - destruct (decide (value ≠ schema.Model t)) as [Hne|Heq].
    + by rewrite Hparse.
    + apply dec_stable in Heq. subst value.
      rewrite (Hwf t eq_refl) in Hparse. injection Hparse as <-.
      unfold ret. f_equal. destruct st as [[] ?]. simpl in *. by subst.
  - by rewrite Hparse.
Qed.

Lemma New_Elem_field (T : StructType) (name : string) :
  name ∈ sf_Name <$> st_Fields T → is_Some (New_Elem T !! name).
Proof.
  intros Hin. unfold New_Elem.
  apply not_eq_None_Some. intros Hnone.
  apply not_elem_of_list_to_map in Hnone. apply Hnone.
  by rewrite <- list_fmap_compose.
Qed.

Lemma field_addrs_all (dest : instance) (names : list string) :
  (∀ name, name ∈ names → is_Some (dest !! name)) →
  field_addrs dest names = Ok names.
Proof.
  induction names as [|name names IH]; intros Hall; simpl; [done|].
  destruct (Hall name) as [v ->]; [left|].
  rewrite IH; [done|]. intros n Hn. apply Hall. by right.
Qed.

Lemma Find_loop_delivers (T : StructType) (table : Schema) (rows : list ScanRow)
    (close : option error) (rs : list (list value)) :
  field_addrs (New_Elem T) (FieldNames table) = Ok (FieldNames table) →
  Forall2 (λ row cols, Scan row (length (FieldNames table)) = inl cols) rows rs →
  ∀ destValue,
    Find_loop T table rows close destValue
    = Ok (close, destValue ++ (store (New_Elem T) (FieldNames table) <$> rs)).
Proof.
  intros Haddrs Hall. induction Hall as [|row cols rows rs Hrow _ IH];
    intros destValue; simpl.
  - by rewrite app_nil_r.
  - rewrite Haddrs. simpl. rewrite Hrow, IH. by rewrite <- app_assoc.
Qed.

Lemma fragments_cons (c : clause.Clause) (k : clause.Type')
    (ks : list clause.Type') :
  fragments c (k :: ks)
  = match clause.map_read (clause.sql c) k with
    | Some s => s :: fragments c ks
    | None => fragments c ks
    end.
Proof. reflexivity. Qed.

Lemma parameters_cons (c : clause.Clause) (k : clause.Type')
    (ks : list clause.Type') :
  parameters c (k :: ks)
  = match clause.map_read (clause.sql c) k with
    | Some _ => default [] (clause.map_read (clause.sqlVars c) k)
                ++ parameters c ks
    | None => parameters c ks
    end.
Proof.
  unfold parameters, present.
  destruct (clause.map_read (clause.sql c) k) eqn:Hk.
  - by rewrite filter_cons_True by (by rewrite Hk).
  - rewrite filter_cons_False; [done|]. rewrite Hk. by intros [? ?].
Qed.

Lemma clause_with_sql (c : clause.Clause) (name k : clause.Type')
    (frag : string) (vars : list value) :
  clause.map_read (clause.sql (clause_with c name frag vars)) k
  = if decide (name = k) then Some frag
    else clause.map_read (clause.sql c) k.
Proof.
  unfold clause_with. simpl. rewrite lookup_insert.
  by rewrite ClauseFacts.map_read_default.
Qed.

Lemma clause_with_sqlVars (c : clause.Clause) (name k : clause.Type')
    (frag : string) (vars : list value) :
  clause.map_read (clause.sqlVars (clause_with c name frag vars)) k
  = if decide (name = k) then Some vars
    else clause.map_read (clause.sqlVars c) k.
Proof.
  unfold clause_with. simpl. rewrite lookup_insert.
  by rewrite ClauseFacts.map_read_default.
Qed.


(** What [Find] does in a well-formed session whose dialect maps the
    element type. *)
Lemma Find_run (R : MapRange) (D : Driver) (T : StructType)
    (destValue : list instance) (st : State) (table : Schema) :
  session_wf (sess st) →
  Parse (mkObject false T) (session.dialect (sess st)) = Ok table →
  let s := sess st in
  let sel := "SELECT " +:+ Join (FieldNames table) ", " +:+ " FROM " +:+
             TableName table in
  let c2 := clause_with (clause s) clause.SELECT sel [] in
  let kinds := [clause.SELECT; clause.WHERE; clause.ORDERBY; clause.LIMIT] in
  let q := (sql s +:+ Join (fragments c2 kinds) " ") +:+ " " in
  let args := sqlVars s ++ parameters c2 kinds in
  Find R D T destValue st
  = (match sqldb.Query D (trace st) (DB s) q args with
     | inr err => Ok (Some err, destValue)
     | inl rows => Find_loop T table (Next rows) (Close rows) destValue
     end,
     mkState (mkSession (session.db s) "" [] (session.dialect s) (Some table)
                        clause.zero (tx s))
             (trace st ++ [EvQuery (DB s) q args])).
Proof.
  intros Hwf Hparse. cbv zeta.
  unfold Find, bind. rewrite (Model_run _ st table Hwf Hparse).
  unfold RefTable, get, ret, deref; simpl.
  rewrite (on_clause_Set' R clause.SELECT _ _
             ("SELECT " +:+ Join (FieldNames table) ", " +:+ " FROM " +:+
              TableName table, [])); [|apply Hwf|done].
  unfold on_clause at 1. rewrite ClauseFacts.Build_run.
  destruct st as [[db0 sql0 vars0 d0 ref0 c0 tx0] tr0].
  unfold Raw, bind, update, modify, lift, DB. simpl.
  cbv beta iota delta [set_sql set_sqlVars set_clause set_refTable
                       session.db sql sqlVars session.dialect refTable
                       clause tx].
  by case_match.
Qed.





End FirstFacts.

(** ** Verification: sequencing *)

Module MonadFacts.
Import schema session spec.

Lemma bind_Ok {St A B} (m : M St A) (k : A → M St B) (st st' : St) (a : A) :
  m st = (Ok a, st') → (x <- m ;; k x) st = k a st'.
Proof. intros H. unfold bind. by rewrite H. Qed.

Lemma bind_Panic {St A B} (m : M St A) (k : A → M St B) (st st' : St)
    (p : panic) :
  m st = (Panic p, st') → (x <- m ;; k x) st = (Panic p, st').
Proof. intros H. unfold bind. by rewrite H. Qed.

(** Reading the bound table and following the pointer. *)
Lemma bound_table {A} (k : Schema → M State A) (st : State) (table : Schema) :
  refTable (sess st) = Some table →
  (p <- RefTable ;; table <- deref p ;; k table) st = k table st.
Proof.
  intros H. unfold RefTable.
  unfold bind at 1 2. unfold get at 1. unfold ret at 1. by rewrite H.
Qed.

Lemma unbound_table {A} (k : Schema → M State A) (st : State) :
  refTable (sess st) = None →
  (p <- RefTable ;; table <- deref p ;; k table) st
  = (Panic NilDereference, st).
Proof.
  intros H. unfold RefTable.
  unfold bind at 1 2. unfold get at 1. unfold ret at 1. by rewrite H.
Qed.

(** [Build] on the session's clause set. *)
Lemma on_clause_Build (orders : list clause.Type') (st : State) :
  on_clause (clause.Build orders) st
  = (Ok (Join (fragments (clause (sess st)) orders) " ",
         parameters (clause (sess st)) orders), st).
Proof.
  unfold on_clause. rewrite ClauseFacts.Build_run. by destruct st as [[] ?].
Qed.

End MonadFacts.


(** ** Verification: the other generators and the clause set *)

Module GeneratorFacts.
Import spec spec_more.
Import clause.

Lemma append_cons (x : Ascii.ascii) (a b : string) :
  String x a +:+ b = String x (a +:+ b).
Proof. reflexivity. Qed.

Lemma append_assoc (a b c : string) : (a +:+ b) +:+ c = a +:+ (b +:+ c).
Proof.
  induction a as [|x a IH]; [done|]. by rewrite !append_cons, IH.
Qed.

Lemma append_nil_r (a : string) : a +:+ "" = a.
Proof. induction a as [|x a IH]; [done|]. by rewrite append_cons, IH. Qed.

Lemma Join_cons_cons (x y : string) (l : list string) (sep : string) :
  Join (x :: y :: l) sep = x +:+ sep +:+ Join (y :: l) sep.
Proof. reflexivity. Qed.

Lemma genBindVars_nonempty (n : nat) : genBindVars (S n) ≠ "".
Proof. unfold genBindVars. destruct n; simpl; discriminate. Qed.

(** The loop of [_values] once the placeholder group is fixed. *)
Lemma _values_loop_fixed (n : nat) (b : string) (rows : list (list value)) :
  b ≠ "" →
  ∀ (i : nat) (sql : string) (vars : list value),
    (i + length rows = n)%nat →
    _values_loop n i (VSlice <$> rows) b sql vars
    = Ok (sql +:+ Join (replicate (length rows) ("(" +:+ b +:+ ")")) ", ",
          vars ++ concat rows).
Proof.
  intros Hb. induction rows as [|r rows IH]; intros i sql vars Hn; simpl.
  - by rewrite append_nil_r, app_nil_r.
  - destruct (decide (b = "")) as [|_]; [done|].
    rewrite IH by (simpl in Hn; lia). rewrite <- app_assoc. f_equal. f_equal.
    destruct rows as [|r' rows]; simpl in *.
    + destruct (decide (i + 1 ≠ n)%nat) as [Hne|_]; [lia|].
      by rewrite append_nil_r.
    + destruct (decide (i + 1 ≠ n)%nat) as [_|Heq]; [|lia].
      by rewrite !append_assoc.
Qed.

(** The loop of [_values] on rows of one length [k]. *)
Lemma _values_loop_uniform (n k : nat) (rows : list (list value)) :
  Forall (λ r, length r = k) rows →
  ∀ (i : nat) (b sql : string) (vars : list value),
    b = "" ∨ b = genBindVars k →
    (i + length rows = n)%nat →
    _values_loop n i (VSlice <$> rows) b sql vars
    = Ok (sql +:+
          Join (replicate (length rows) ("(" +:+ genBindVars k +:+ ")")) ", ",
          vars ++ concat rows).
Proof.
  induction 1 as [|r rows Hr _ IH]; intros i b sql vars Hb Hn; simpl.
  - by rewrite append_nil_r, app_nil_r.
  - assert ((if decide (b = "") then genBindVars (length r) else b)
            = genBindVars k) as ->.
    { destruct (decide (b = "")); [by rewrite Hr | by destruct Hb]. }
    rewrite IH by (auto; simpl in Hn; lia).
    rewrite <- app_assoc. f_equal. f_equal.
    destruct rows as [|r' rows]; simpl in *.
    + destruct (decide (i + 1 ≠ n)%nat) as [Hne|_]; [lia|].
      by rewrite append_nil_r.
    + destruct (decide (i + 1 ≠ n)%nat) as [_|Heq]; [|lia].
      by rewrite !append_assoc.
Qed.

Lemma _values_uniform (k : nat) (rows : list (list value)) :
  Forall (λ r, length r = k) rows →
  _values (VSlice <$> rows)
  = Ok ("VALUES " +:+
        Join (replicate (length rows) ("(" +:+ genBindVars k +:+ ")")) ", ",
        concat rows).
Proof.
  intros Hrows. unfold _values. rewrite length_fmap.
  by rewrite (_values_loop_uniform (length rows) k rows Hrows) by auto.
Qed.

(** X1. [_values] on rows of which the first is not empty: one
    parenthesised group per row, every group with as many placeholders as
    the first row has values, whatever the later rows hold; the parameters
    are the rows' values in order. *)
Theorem values_groups (r : list value) (rows : list (list value)) :
  r ≠ [] →
  _values (VSlice <$> (r :: rows))
  = Ok ("VALUES " +:+
        Join (replicate (S (length rows))
                        ("(" +:+ genBindVars (length r) +:+ ")")) ", ",
        concat (r :: rows)).
Proof.
  intros Hr. unfold _values. rewrite length_fmap.
  change (VSlice <$> r :: rows) with (VSlice r :: (VSlice <$> rows)).
  cbn [_values_loop as_slice obind].
  destruct (decide ("" = "")) as [_|]; [|done].
  destruct r as [|v r]; [done|]. clear Hr.
  pose proof (genBindVars_nonempty (length r)) as Hb.
  set (b := genBindVars (length (v :: r))) in *.
  rewrite (_values_loop_fixed (length ((v :: r) :: rows)) b rows Hb)
    by (simpl; lia).
  f_equal. f_equal.
  destruct rows as [|r' rows]; simpl length.
  - destruct (decide (0 + 1 ≠ 1)%nat) as [|_]; [lia|].
    simpl. by rewrite append_nil_r.
  - destruct (decide (0 + 1 ≠ S (S (length rows)))%nat) as [_|]; [|lia].
    change (replicate (S (S (length rows))) ("(" +:+ b +:+ ")")) with
      (("(" +:+ b +:+ ")") :: ("(" +:+ b +:+ ")")
         :: replicate (length rows) ("(" +:+ b +:+ ")")).
    rewrite Join_cons_cons. by rewrite !append_assoc.
Qed.

Lemma values_groups_witness :
  [VStr "Tom"; VInt 18] ≠ []
  ∧ _values [VSlice [VStr "Tom"; VInt 18]; VSlice [VStr "Sam"; VInt 25]]
    = Ok ("VALUES (?, ?), (?, ?)",
          [VStr "Tom"; VInt 18; VStr "Sam"; VInt 25]).
Proof.
  assert (H : [VStr "Tom"; VInt 18] ≠ []) by discriminate.
  split; [exact H|].
  exact (values_groups [VStr "Tom"; VInt 18] [[VStr "Sam"; VInt 25]] H).
Defined.

Lemma _values_loop_panics (n : nat) (rest : list value) :
  (∃ v, v ∈ rest ∧ ∀ l, v ≠ VSlice l) →
  ∀ (i : nat) (b sql : string) (vars : list value),
    _values_loop n i rest b sql vars = Panic (TypeAssertion "[]interface {}").
Proof.
  induction rest as [|x rest IH]; intros (v & Hin & Hv) i b sql vars.
  - by apply elem_of_nil in Hin.
  - simpl. destruct x; try done.
    apply elem_of_cons in Hin as [-> | Hin]; [by destruct (Hv l)|].
    simpl. apply IH. eauto.
Qed.

(** X2. [_values] panics on its type assertion as soon as one argument is
    not a [[]interface{}], wherever it stands among the arguments. *)
Theorem values_needs_rows (values : list value) (v : value) :
  v ∈ values → (∀ l, v ≠ VSlice l) →
  _values values = Panic (TypeAssertion "[]interface {}").
Proof. intros Hin Hv. apply _values_loop_panics. eauto. Qed.

Lemma values_needs_rows_witness :
  VStr "Tom" ∈ [VSlice [VInt 1]; VStr "Tom"]
  ∧ (∀ l, VStr "Tom" ≠ VSlice l)
  ∧ _values [VSlice [VInt 1]; VStr "Tom"]
    = Panic (TypeAssertion "[]interface {}").
Proof.
  assert (H1 : VStr "Tom" ∈ [VSlice [VInt 1]; VStr "Tom"])
    by (right; left).
  assert (H2 : ∀ l, VStr "Tom" ≠ VSlice l) by (intros l; discriminate).
  split; [exact H1|]. split; [exact H2|].
  exact (values_needs_rows _ _ H1 H2).
Defined.

End GeneratorFacts.


Module ClauseSetFacts.
Import spec spec_more.
Import clause.

(** A [Set'] whose generator panics panics with it, and leaves a clause
    set that builds as before. *)
Lemma Set'_panic (R : MapRange) (name : Type') (vars : list value)
    (c : Clause) (p : panic) :
  generators R name vars = Panic p →
  (Set' R name vars c).1 = Panic p
  ∧ ∀ orders, (Build orders (Set' R name vars c).2).1 = (Build orders c).1.
Proof.
  intros Hg. unfold Set', bind, get, put, ret, lift. simpl.
  destruct c as [[s|] v]; simpl; rewrite Hg; simpl; [done|].
  split; [done|]. intros orders. rewrite !ClauseFacts.Build_run. simpl.
  assert (∀ c1 : Clause,
            (∀ k, map_read (sql c1) k = None) →
            fragments c1 orders = [] ∧ parameters c1 orders = []) as Hempty.
  { intros c1 Hc1. induction orders as [|k orders IH]; [done|].
    by rewrite FirstFacts.fragments_cons, FirstFacts.parameters_cons, Hc1. }
  destruct (Hempty {| sql := Some ∅; sqlVars := Some ∅ |}) as [-> ->].
  { intros k. simpl. apply lookup_empty. }
  by destruct (Hempty {| sql := None; sqlVars := v |}) as [-> ->].
Qed.

(** X3. [Set] with too few arguments panics on the index: with none for
    every kind but LIMIT and VALUES, with one for INSERT, SELECT and
    UPDATE. The clause set then builds as it did before the call. *)
Theorem Set_too_few_arguments (R : MapRange) (name : Type') (c : Clause) :
  (name ≠ LIMIT → name ≠ VALUES →
   (Set' R name [] c).1 = Panic (IndexOutOfRange 0 0)
   ∧ ∀ orders, (Build orders (Set' R name [] c).2).1 = (Build orders c).1)
  ∧ (name = INSERT ∨ name = SELECT ∨ name = UPDATE →
     ∀ x, (Set' R name [x] c).1 = Panic (IndexOutOfRange 1 1)
          ∧ ∀ orders,
              (Build orders (Set' R name [x] c).2).1 = (Build orders c).1).
Proof.
  split.
  - intros H1 H2. apply Set'_panic. by destruct name.
  - intros H x. apply Set'_panic. by destruct H as [-> | [-> | ->]].
Qed.

Lemma Set_too_few_arguments_witness :
  WHERE ≠ LIMIT ∧ WHERE ≠ VALUES
  ∧ (SELECT = INSERT ∨ SELECT = SELECT ∨ SELECT = UPDATE)
  ∧ (Set' range_listed WHERE [] zero).1 = Panic (IndexOutOfRange 0 0)
  ∧ (Set' range_listed SELECT [VStr "User"] zero).1
    = Panic (IndexOutOfRange 1 1).
Proof.
  assert (H1 : WHERE ≠ LIMIT) by discriminate.
  assert (H2 : WHERE ≠ VALUES) by discriminate.
  assert (H3 : SELECT = INSERT ∨ SELECT = SELECT ∨ SELECT = UPDATE)
    by (right; left; reflexivity).
  split; [exact H1|]. split; [exact H2|]. split; [exact H3|]. split.
  - exact (proj1 (proj1 (Set_too_few_arguments range_listed WHERE zero)
                        H1 H2)).
  - exact (proj1 (proj2 (Set_too_few_arguments range_listed SELECT zero)
                        H3 (VStr "User"))).
Defined.

Lemma Set'_with (R : MapRange) (name : Type') (vars : list value)
    (c : Clause) (r : string * list value) :
  clause_wf c → generators R name vars = Ok r →
  Set' R name vars c = (Ok tt, clause_with c name r.1 r.2).
Proof. apply ClauseFacts.Set'_run. Qed.

(** X4. Setting a kind again overwrites it: two [Set] calls for one kind,
    both of which return, leave the clause set as the second alone does. *)
Theorem Set_overwrites (R : MapRange) (name : Type')
    (vars1 vars2 : list value) (c : Clause) (r1 r2 : string * list value) :
  clause_wf c →
  generators R name vars1 = Ok r1 →
  generators R name vars2 = Ok r2 →
  (Set' R name vars1 ;;; Set' R name vars2) c = Set' R name vars2 c.
Proof.
  intros Hwf H1 H2. unfold bind.
  rewrite (Set'_with R name vars1 c r1 Hwf H1).
  rewrite (Set'_with R name vars2 _ r2 (FirstFacts.clause_with_wf _ _ _ _) H2).
  rewrite (Set'_with R name vars2 c r2 Hwf H2).
  unfold clause_with. simpl. by rewrite !insert_insert_eq.
Qed.

Lemma Set_overwrites_witness :
  clause_wf zero
  ∧ generators range_listed WHERE [VStr "Age > ?"; VInt 3]
    = Ok ("WHERE Age > ?", [VInt 3])
  ∧ generators range_listed WHERE [VStr "Name = ?"; VStr "Tom"]
    = Ok ("WHERE Name = ?", [VStr "Tom"])
  ∧ (Set' range_listed WHERE [VStr "Age > ?"; VInt 3] ;;;
     Set' range_listed WHERE [VStr "Name = ?"; VStr "Tom"]) zero
    = Set' range_listed WHERE [VStr "Name = ?"; VStr "Tom"] zero.
Proof.
  assert (Hwf : clause_wf zero) by done.
  split; [exact Hwf|]. split; [reflexivity|]. split; [reflexivity|].
  exact (Set_overwrites range_listed WHERE [VStr "Age > ?"; VInt 3]
           [VStr "Name = ?"; VStr "Tom"] zero
           ("WHERE Age > ?", [VInt 3]) ("WHERE Name = ?", [VStr "Tom"])
           Hwf eq_refl eq_refl).
Defined.

(** X5. [Set] calls for two different kinds, both of which return, can be
    made in either order: the clause set is the same. *)
Theorem Set_commutes (R : MapRange) (name1 name2 : Type')
    (vars1 vars2 : list value) (c : Clause) (r1 r2 : string * list value) :
  clause_wf c →
  name1 ≠ name2 →
  generators R name1 vars1 = Ok r1 →
  generators R name2 vars2 = Ok r2 →
  (Set' R name1 vars1 ;;; Set' R name2 vars2) c
  = (Set' R name2 vars2 ;;; Set' R name1 vars1) c.
Proof.
  intros Hwf Hne H1 H2. unfold bind.
  rewrite (Set'_with R name1 vars1 c r1 Hwf H1).
  rewrite (Set'_with R name2 vars2 _ r2 (FirstFacts.clause_with_wf _ _ _ _) H2).
  rewrite (Set'_with R name2 vars2 c r2 Hwf H2).
  rewrite (Set'_with R name1 vars1 _ r1 (FirstFacts.clause_with_wf _ _ _ _) H1).
  unfold clause_with. simpl.
  by rewrite (insert_insert_ne _ name1 name2), (insert_insert_ne _ name1 name2).
Qed.

Lemma Set_commutes_witness :
  clause_wf zero
  ∧ LIMIT ≠ WHERE
  ∧ generators range_listed LIMIT [VInt 3] = Ok ("LIMIT ?", [VInt 3])
  ∧ generators range_listed WHERE [VStr "Name = ?"; VStr "Tom"]
    = Ok ("WHERE Name = ?", [VStr "Tom"])
  ∧ (Set' range_listed LIMIT [VInt 3] ;;;
     Set' range_listed WHERE [VStr "Name = ?"; VStr "Tom"]) zero
    = (Set' range_listed WHERE [VStr "Name = ?"; VStr "Tom"] ;;;
       Set' range_listed LIMIT [VInt 3]) zero.
Proof.
  assert (Hwf : clause_wf zero) by done.
  assert (Hne : LIMIT ≠ WHERE) by discriminate.
  split; [exact Hwf|]. split; [exact Hne|].
  split; [reflexivity|]. split; [reflexivity|].
  exact (Set_commutes range_listed LIMIT WHERE [VInt 3]
           [VStr "Name = ?"; VStr "Tom"] zero
           ("LIMIT ?", [VInt 3]) ("WHERE Name = ?", [VStr "Tom"]) Hwf Hne
           eq_refl eq_refl).
Defined.

(** X6. [Build] reads back what [Set] stored: after a [Set] that returns,
    building that one kind gives the generator's fragment and parameters,
    whatever else the clause set holds. *)
Theorem Build_after_Set (R : MapRange) (name : Type') (vars : list value)
    (c : Clause) (r : string * list value) :
  clause_wf c →
  generators R name vars = Ok r →
  ((Set' R name vars ;;; Build [name]) c).1 = Ok r.
Proof.
  intros Hwf Hg. unfold bind. rewrite (Set'_with R name vars c r Hwf Hg).
  rewrite ClauseFacts.Build_run.
  unfold fragments, parameters, present, clause_with. simpl.
  rewrite filter_cons_True by (rewrite lookup_insert_eq; eauto). simpl.
  rewrite !lookup_insert_eq. simpl. rewrite app_nil_r. by destruct r.
Qed.

Lemma Build_after_Set_witness :
  clause_wf zero
  ∧ generators range_listed DELETE [VStr "User"] = Ok ("DELETE FROM User", [])
  ∧ ((Set' range_listed DELETE [VStr "User"] ;;; Build [DELETE]) zero).1
    = Ok ("DELETE FROM User", []).
Proof.
  assert (Hwf : clause_wf zero) by done.
  split; [exact Hwf|]. split; [reflexivity|].
  exact (Build_after_Set range_listed DELETE [VStr "User"] zero
           ("DELETE FROM User", []) Hwf eq_refl).
Defined.

End ClauseSetFacts.


(** ** Verification: field lookup and record values *)

Module RecordValuesFacts.
Import dialect schema sqldb session spec spec_more.
Import record.

(** Whatever holds of the empty schema and is kept when a column is
    added holds of what [Parse] returns. *)
Lemma Parse_loop_invariant (P : Schema → Prop) (d : Dialect)
    (fields : list StructField) :
  (∀ s p ty,
     P s → is_column p = true → DataTypeOf d (sf_Type p) = Ok ty →
     P {| schema.Model := schema.Model s; TableName := TableName s;
          Fields := Fields s ++ [column_of p ty];
          FieldNames := FieldNames s ++ [sf_Name p];
          fieldMap := <[sf_Name p := column_of p ty]> (fieldMap s) |}) →
  ∀ s0 s, P s0 → Parse_loop d fields s0 = Ok s → P s.
Proof.
  intros Hstep. induction fields as [|p fields IH]; intros s0 s H0; simpl.
  - by intros [= <-].
  - destruct (is_column p) eqn:Hp; [|by apply IH].
    destruct (DataTypeOf d (sf_Type p)) as [ty|] eqn:Hty; [|discriminate].
    simpl. apply IH.
    replace (match sf_Tag p with
             | Some v => {| Name := sf_Name p; Type_ := ty; Tag := v |}
             | None => {| Name := sf_Name p; Type_ := ty; Tag := "" |}
             end) with (column_of p ty)
      by (unfold column_of; by destruct (sf_Tag p)).
    by apply Hstep.
Qed.

Lemma Parse_consistent (dest : object) (d : Dialect) (s : Schema) :
  Parse dest d = Ok s → consistent s.
Proof.
  unfold Parse. apply Parse_loop_invariant.
  - intros s1 p ty (Hn & Hnone & Hsome) _ _. repeat split; simpl.
    + by rewrite Hn, fmap_app.
    + rewrite lookup_insert_None, Hnone, not_elem_of_app, not_elem_of_cons.
      intros [? ?]. split; [done|]. split; [done|]. apply not_elem_of_nil.
    + rewrite lookup_insert_None, Hnone, not_elem_of_app, not_elem_of_cons.
      intros [? [? _]]. by split.
    + intros Hdup f Hf.
      apply NoDup_app in Hdup as (Hdup & Hnew & _).
      apply elem_of_app in Hf as [Hf | Hf].
      * assert (Name f ∈ FieldNames s1) as Hin
          by (rewrite Hn; by apply list_elem_of_fmap_2).
        rewrite lookup_insert_ne; [by apply Hsome|].
        intros Heq. apply (Hnew _ Hin). rewrite <- Heq. left.
      * apply list_elem_of_singleton in Hf as ->. apply lookup_insert_eq.
  - repeat split; simpl; try done.
    + intros _. apply not_elem_of_nil.
    + intros _ f Hf. by apply elem_of_nil in Hf.
Qed.

(** X7. In a schema that [Parse] returned, [GetField] answers [nil]
    exactly for the names that are no column, and, the column names being
    distinct, gives back each column under its own name. *)
Theorem GetField_after_Parse (dest : object) (d : Dialect) (s : Schema) :
  Parse dest d = Ok s →
  (∀ name, GetField s name = None ↔ name ∉ FieldNames s)
  ∧ (NoDup (FieldNames s) →
     ∀ f, f ∈ Fields s → GetField s (Name f) = Some f).
Proof.
  intros Hparse. destruct (Parse_consistent _ _ _ Hparse) as (_ & H1 & H2).
  by split.
Qed.

Lemma User_schema_parsed :
  Parse (mkObject true User) sqlite3 = Ok User_schema.
Proof. reflexivity. Qed.

Lemma User_schema_NoDup : NoDup (FieldNames User_schema).
Proof.
  apply (bool_decide_unpack (NoDup (FieldNames User_schema))). by vm_compute.
Qed.

Lemma GetField_after_Parse_witness :
  Parse (mkObject true User) sqlite3 = Ok User_schema
  ∧ NoDup (FieldNames User_schema)
  ∧ GetField User_schema "Age"
    = Some {| Name := "Age"; Type_ := "integer"; Tag := "" |}
  ∧ (GetField User_schema "age" = None ↔ "age" ∉ FieldNames User_schema).
Proof.
  split; [exact User_schema_parsed|]. split; [exact User_schema_NoDup|].
  destruct (GetField_after_Parse _ _ _ User_schema_parsed) as [Hnone Hsome].
  split; [|exact (Hnone "age")].
  apply (Hsome User_schema_NoDup
               {| Name := "Age"; Type_ := "integer"; Tag := "" |}).
  right; left.
Defined.

Lemma RecordValues_loop_reads (dest : instance) (fields : list Field)
    (cols : list value) :
  Forall2 (λ f c, dest !! Name f = Some c) fields cols →
  ∀ acc, RecordValues_loop dest fields acc = Ok (acc ++ cols).
Proof.
  induction 1 as [|f c fields cols Hf _ IH]; intros acc; simpl.
  - by rewrite app_nil_r.
  - by rewrite Hf, IH, <- app_assoc.
Qed.

Lemma store_other (names : list string) :
  ∀ (dest : instance) (cols : list value) (n : string),
    n ∉ names → store dest names cols !! n = dest !! n.
Proof.
  unfold instance.
  induction names as [|a names IH]; intros dest cols n Hn; [done|].
  destruct cols as [|c cols]; [done|]. simpl.
  apply not_elem_of_cons in Hn as [Hne Hn].
  rewrite IH by done. unfold instance. by rewrite lookup_insert_ne.
Qed.

Lemma store_reads (names : list string) :
  NoDup names →
  ∀ (dest : instance) (cols : list value),
    length cols = length names →
    Forall2 (λ n c, store dest names cols !! n = Some c) names cols.
Proof.
  unfold instance.
  induction 1 as [|a names Ha Hdup IH]; intros dest [|c cols] Hlen;
    simplify_eq/=; constructor.
  - rewrite store_other by done. unfold instance. apply lookup_insert_eq.
  - by apply IH.
Qed.

(** X8. [RecordValues] reads back what [Find] stores: in a schema that
    [Parse] returned, with distinct column names, the values that a
    successful [Scan] leaves in a struct are the values [RecordValues]
    returns for it, in column order. *)
Theorem RecordValues_reads_stored (dest : object) (d : Dialect) (s : Schema)
    (v : instance) (cols : list value) :
  Parse dest d = Ok s →
  NoDup (FieldNames s) →
  length cols = length (FieldNames s) →
  RecordValues s (store v (FieldNames s) cols) = Ok cols.
Proof.
  intros Hparse Hdup Hlen.
  destruct (Parse_consistent _ _ _ Hparse) as (Hn & _ & _).
  unfold RecordValues.
  rewrite (RecordValues_loop_reads _ (Fields s) cols); [done|].
  pose proof (store_reads _ Hdup v cols Hlen) as Hall.
  set (stored := store v (FieldNames s) cols) in *.
  rewrite Hn in Hall. by apply Forall2_fmap_l in Hall.
Qed.

Lemma RecordValues_reads_stored_witness :
  Parse (mkObject true User) sqlite3 = Ok User_schema
  ∧ NoDup (FieldNames User_schema)
  ∧ length [VStr "Tom"; VInt 18] = length (FieldNames User_schema)
  ∧ RecordValues User_schema
      (store (New_Elem User) (FieldNames User_schema) [VStr "Tom"; VInt 18])
    = Ok [VStr "Tom"; VInt 18].
Proof.
  split; [exact User_schema_parsed|]. split; [exact User_schema_NoDup|].
  split; [reflexivity|].
  exact (RecordValues_reads_stored _ _ _ (New_Elem User) [VStr "Tom"; VInt 18]
           User_schema_parsed User_schema_NoDup eq_refl).
Defined.

Lemma RecordValues_loop_missing (dest : instance) (fields : list Field) :
  (∃ f, f ∈ fields ∧ dest !! Name f = None) →
  ∀ acc,
    RecordValues_loop dest fields acc
    = Panic (PanicValue
               "reflect: call of reflect.Value.Interface on zero Value").
Proof.
  induction fields as [|x fields IH]; intros (f & Hin & Hf) acc.
  - by apply elem_of_nil in Hin.
  - simpl. destruct (dest !! Name x) eqn:Hx; [|done].
    apply IH. apply elem_of_cons in Hin as [-> | Hin]; [congruence | eauto].
Qed.

(** X9. [RecordValues] on a value that lacks one of the schema's columns
    panics; it does not skip the column. *)
Theorem RecordValues_missing_field (s : Schema) (v : instance) (f : Field) :
  f ∈ Fields s → v !! Name f = None →
  RecordValues s v
  = Panic (PanicValue "reflect: call of reflect.Value.Interface on zero Value").
Proof. intros Hin Hf. apply RecordValues_loop_missing. eauto. Qed.

Lemma RecordValues_missing_field_witness :
  {| Name := "Age"; Type_ := "integer"; Tag := "" |} ∈ Fields User_schema
  ∧ ({[ "Name" := VStr "Tom" ]} : instance) !! "Age" = None
  ∧ RecordValues User_schema {[ "Name" := VStr "Tom" ]}
    = Panic (PanicValue
               "reflect: call of reflect.Value.Interface on zero Value").
Proof.
  assert (H1 : {| Name := "Age"; Type_ := "integer"; Tag := "" |}
               ∈ Fields User_schema) by (right; left).
  assert (H2 : ({[ "Name" := VStr "Tom" ]} : instance) !! "Age" = None)
    by reflexivity.
  split; [exact H1|]. split; [exact H2|].
  exact (RecordValues_missing_field User_schema _ _ H1 H2).
Defined.

End RecordValuesFacts.


(** ** Verification: the construction of an engine, and the log levels *)

Module EngineMoreFacts.
Import dialect sqldb geeorm spec spec_more.
Import engine.

(** X10. [NewEngine] returns an engine exactly when the database opens,
    answers the ping and the driver name has a registered dialect, and
    then no error; it returns the error of [Open] or of [Ping] when one of
    them fails; and when both succeed but no dialect is registered under
    the driver name it returns neither an engine nor an error. *)
Theorem NewEngine_results (Open : string → string → sqlDB + error)
    (Ping : sqlDB → option error) (dialectsMap : gmap string Dialect)
    (driverName dataSourceName : string) :
  let r := NewEngine Open Ping dialectsMap driverName dataSourceName in
  (∀ e, r.1 = Some e ↔
        Open driverName dataSourceName = inl (db e)
        ∧ Ping (db e) = None
        ∧ registry.GetDialect driverName dialectsMap = Some (dialect e))
  ∧ (∀ err, r.2 = Some err ↔
            Open driverName dataSourceName = inr err
            ∨ ∃ db, Open driverName dataSourceName = inl db
                    ∧ Ping db = Some err)
  ∧ (is_Some r.1 → r.2 = None)
  ∧ (∀ db, Open driverName dataSourceName = inl db → Ping db = None →
           registry.GetDialect driverName dialectsMap = None →
           r = (None, None)).
Proof.
  unfold NewEngine. cbv zeta.
  destruct (Open driverName dataSourceName) as [db0|err0] eqn:Hopen;
    [destruct (Ping db0) as [err1|] eqn:Hping;
     [|destruct (registry.GetDialect driverName dialectsMap)
         as [dial|] eqn:Hd]|];
    simpl; (split; [|split; [|split]]).
  - intros e. split; [done|]. intros ([= ->] & H & _). congruence.
  - intros err. split.
    + intros [= ->]. right. by exists db0.
    + intros [[=] | (db1 & [= <-] & H)]. congruence.
  - by intros [? [=]].
  - intros db1 [= <-]. congruence.
  - intros e. split.
    + by intros [= <-].
    + intros ([= Hdb] & _ & [= Hdial]). destruct e. simpl in *. by subst.
  - intros err. split; [done|].
    intros [[=] | (db1 & [= <-] & H)]. congruence.
  - done.
  - done.
  - intros e. split; [done|]. by intros (_ & _ & [=]).
  - intros err. split; [done|].
    intros [[=] | (db1 & [= <-] & H)]. congruence.
  - by intros [? [=]].
  - done.
  - intros e. split; [done|]. by intros ([=] & _).
  - intros err. split.
    + intros [= ->]. by left.
    + by intros [[= ->] | (db1 & [=] & _)].
  - by intros [? [=]].
  - by intros db1 [=].
Qed.

Lemma NewEngine_results_witness :
  (λ _ _ : string, inl 7%nat : sqlDB + error) "mysql" "gee.db" = inl 7%nat
  ∧ (λ _ : sqlDB, None : option error) 7%nat = None
  ∧ registry.GetDialect "mysql" registry.init = None
  ∧ NewEngine (λ _ _, inl 7%nat) (λ _, None) registry.init "mysql" "gee.db"
    = (None, None)
  ∧ NewEngine (λ _ _, inl 7%nat) (λ _, None) registry.init "sqlite3" "gee.db"
    = (Some engine0, None).
Proof.
  split; [reflexivity|]. split; [reflexivity|]. split; [reflexivity|]. split.
  - exact (proj2 (proj2 (proj2
             (NewEngine_results (λ _ _, inl 7%nat) (λ _, None) registry.init
                                "mysql" "gee.db")))
             7%nat eq_refl eq_refl eq_refl).
  - reflexivity.
Defined.

(** X11. However [SetLevel] is called, error output is on whenever info
    output is; a call with one of the three levels decides both outputs
    whatever was set before, and a call with any other level changes
    nothing. *)
Theorem SetLevel_levels (levels : list Z) :
  (log.infoLog (levels_set levels) = log.Stdout →
   log.errorLog (levels_set levels) = log.Stdout)
  ∧ (∀ level : Z, (0 ≤ level ≤ 2)%Z →
              levels_set (levels ++ [level]) = levels_set [level])
  ∧ (∀ level : Z, ¬ (0 ≤ level ≤ 2)%Z →
              levels_set (levels ++ [level]) = levels_set levels).
Proof.
  unfold levels_set. split; [|split].
  - induction levels as [|level levels IH] using rev_ind; [done|].
    rewrite foldl_app. simpl. unfold log.SetLevel.
    repeat case_decide; simpl; try done.
  - intros level Hl. rewrite foldl_app. simpl. unfold log.SetLevel.
    unfold log.InfoLevel, log.ErrorLevel, log.Disabled.
    repeat case_decide; try done. lia.
  - intros level Hl. rewrite foldl_app. simpl. unfold log.SetLevel.
    unfold log.InfoLevel, log.ErrorLevel, log.Disabled.
    repeat case_decide; try done; lia.
Qed.

Lemma SetLevel_levels_witness :
  (0 ≤ 1 ≤ 2)%Z ∧ ¬ (0 ≤ 7 ≤ 2)%Z
  ∧ levels_set [2; 7; 1] = log.mkLoggers log.Stdout log.Discard
  ∧ levels_set [1; 7] = levels_set [1].
Proof.
  assert (H1 : (0 ≤ 1 ≤ 2)%Z) by lia. assert (H2 : ¬ (0 ≤ 7 ≤ 2)%Z) by lia.
  split; [exact H1|]. split; [exact H2|]. split.
  - exact (eq_trans (proj1 (proj2 (SetLevel_levels [2; 7])) 1 H1) eq_refl).
  - exact (proj2 (proj2 (SetLevel_levels [1])) 7 H2).
Defined.

End EngineMoreFacts.


(** ** Verification: the record operations *)

Module RecordFacts.
Import dialect schema sqldb session geeorm spec spec_more.
Import record.

Local Arguments fragments : simpl never.
Local Arguments parameters : simpl never.
Local Arguments clause_with : simpl never.
Local Arguments Join : simpl never.
Local Arguments String.append : simpl never.

(** What [Build] makes of a kind just set, followed by WHERE. *)
Lemma Build_op (c : clause.Clause) (K : clause.Type') (frag : string)
    (vars : list value) :
  K ≠ clause.WHERE →
  fragments (clause_with c K frag vars) [K; clause.WHERE]
  = [frag] ++ fragments c [clause.WHERE]
  ∧ parameters (clause_with c K frag vars) [K; clause.WHERE]
    = vars ++ parameters c [clause.WHERE].
Proof.
  intros HK.
  rewrite !FirstFacts.fragments_cons, !FirstFacts.parameters_cons.
  rewrite !FirstFacts.clause_with_sql, !FirstFacts.clause_with_sqlVars.
  destruct (decide (K = K)) as [_|]; [|done].
  destruct (decide (K = clause.WHERE)) as [|_]; [done|]. simpl.
  by destruct (clause.map_read (clause.sql c) clause.WHERE).
Qed.

(** A record operation up to its driver call: the kind is set, the
    statement built and made pending; [k] is the rest of the operation. *)
Lemma prepare_run {A} (R : MapRange) (K : clause.Type') (args : list value)
    (st : State) (frag : string) (vars : list value) (k : M State A) :
  clause_wf (clause (sess st)) → K ≠ clause.WHERE →
  clause.generators R K args = Ok (frag, vars) →
  (on_clause (clause.Set' R K args) ;;;
   q <- on_clause (clause.Build [K; clause.WHERE]) ;;
   Raw q.1 q.2 ;;; k) st
  = k (mkState (mkSession (session.db (sess st))
                          (statement (sess st) frag vars).1
                          (statement (sess st) frag vars).2
                          (session.dialect (sess st)) (refTable (sess st))
                          (clause_with (clause (sess st)) K frag vars)
                          (tx (sess st)))
               (trace st)).
Proof.
  intros Hwf HK Hg. unfold bind.
  rewrite (FirstFacts.on_clause_Set' R K args st (frag, vars) Hwf Hg).
  unfold on_clause at 1. rewrite ClauseFacts.Build_run.
  destruct st as [[db0 sql0 vars0 d0 ref0 c0 tx0] tr0].
  unfold statement.
  cbv beta iota delta [set_sql set_sqlVars set_clause set_refTable
                       session.db sql sqlVars session.dialect refTable
                       clause tx sess trace fst snd].
  destruct (Build_op c0 K frag vars HK) as [-> ->].
  reflexivity.
Qed.

(** The session once the driver call of an operation has returned. *)
Lemma after_call (s : Session) :
  mkSession (session.db s) "" [] (session.dialect s) (refTable s)
            clause.zero (tx s)
  = set_clause clause.zero (set_sqlVars [] (set_sql "" s)).
Proof. by destruct s. Qed.

(** X12. In a session bound to a table, [Delete] makes one driver call: it
    executes, through the handle [DB] picks, the pending statement followed
    by [DELETE FROM] the table and the WHERE clause if one is set, bound to
    the pending arguments and those of the WHERE clause. It returns the
    driver's error with a count of 0, or what [RowsAffected] gives, and
    leaves the session with no statement and no clause. *)
Theorem Delete_statement (R : MapRange) (D : Driver) (st : State)
    (table : Schema) :
  clause_wf (clause (sess st)) →
  refTable (sess st) = Some table →
  let s := sess st in
  let q := statement s ("DELETE FROM " +:+ TableName table) [] in
  Delete R D st
  = (Ok match sqldb.Exec D (trace st) (DB s) q.1 q.2 with
        | inr err => (0, Some err)
        | inl result => RowsAffected result
        end,
     mkState (set_clause clause.zero (set_sqlVars [] (set_sql "" s)))
             (trace st ++ [EvExec (DB s) q.1 q.2])).
Proof.
  intros Hwf Htable. cbv zeta.
  unfold Delete. unfold bind at 1 2. unfold RefTable, get, bind at 1, ret.
  rewrite Htable. unfold deref, ret.
  rewrite (prepare_run R clause.DELETE _ st
             ("DELETE FROM " +:+ TableName table) []); [|done|done|done].
  unfold bind. rewrite SessionFacts.Exec_run. simpl.
  rewrite <- after_call. unfold ret.
  by destruct (sqldb.Exec D _ _ _ _).
Qed.

Lemma Delete_statement_witness :
  clause_wf (clause (sess bound_where))
  ∧ refTable (sess bound_where) = Some User_schema
  ∧ Delete range_listed accepting bound_where
    = (Ok (1, None),
       mkState (sess bound)
               [EvExec (ViaDB 7%nat) "DELETE FROM User WHERE Name = ? "
                       [VStr "Tom"]]).
Proof.
  assert (H1 : clause_wf (clause (sess bound_where))) by (split; discriminate).
  assert (H2 : refTable (sess bound_where) = Some User_schema) by reflexivity.
  split; [exact H1|]. split; [exact H2|].
  exact (eq_trans (Delete_statement range_listed accepting bound_where
                     User_schema H1 H2) eq_refl).
Defined.

(** X13. In a session bound to a table, [Count] makes one driver call: it
    queries one row with the pending statement followed by
    a SELECT of the table's row count and the WHERE clause if one is set.
    The query goes through the plain connection, whether or not a
    transaction is open. [Count] returns the scanned number, or 0 with the
    error of the scan. *)
Theorem Count_statement (R : MapRange) (D : Driver)
    (Scan_int64 : Row → Z + error) (st : State) (table : Schema) :
  clause_wf (clause (sess st)) →
  refTable (sess st) = Some table →
  let s := sess st in
  let q := statement s ("SELECT count(*) FROM " +:+ TableName table) [] in
  Count R D Scan_int64 st
  = (Ok match Scan_int64 (sqldb.QueryRow D (trace st) (ViaDB (session.db s))
                                         q.1 q.2) with
        | inr err => (0, Some err)
        | inl count => (count, None)
        end,
     mkState (set_clause clause.zero (set_sqlVars [] (set_sql "" s)))
             (trace st ++ [EvQueryRow (ViaDB (session.db s)) q.1 q.2])).
Proof.
  intros Hwf Htable. cbv zeta.
  unfold Count. unfold bind at 1 2. unfold RefTable, get, bind at 1, ret.
  rewrite Htable. unfold deref, ret.
  rewrite (prepare_run R clause.COUNT _ st
             ("SELECT count(*) FROM " +:+ TableName table) []);
    [|done|done|done].
  unfold bind. rewrite SessionFacts.QueryRow_run. simpl.
  rewrite <- after_call. unfold ret.
  by destruct (Scan_int64 _).
Qed.

Lemma Count_statement_witness :
  clause_wf (clause (sess bound_where))
  ∧ refTable (sess bound_where) = Some User_schema
  ∧ Count range_listed accepting Scan_count
          (mkState (set_tx (Some 3%nat) (sess bound_where)) [])
    = (Ok (2, None),
       mkState (set_tx (Some 3%nat) (sess bound))
               [EvQueryRow (ViaDB 7%nat)
                           "SELECT count(*) FROM User WHERE Name = ? "
                           [VStr "Tom"]]).
Proof.
  assert (H1 : clause_wf (clause (sess bound_where))) by (split; discriminate).
  assert (H2 : refTable (sess bound_where) = Some User_schema) by reflexivity.
  split; [exact H1|]. split; [exact H2|].
  exact (eq_trans (Count_statement range_listed accepting Scan_count
                     (mkState (set_tx (Some 3%nat) (sess bound_where)) [])
                     User_schema H1 H2) eq_refl).
Defined.

(** X14. In a session bound to a table, [Update] with a map as its first
    argument ignores the other arguments and makes one driver call: it
    executes the pending statement followed by [UPDATE] of the table,
    setting the map's columns in the order the range statement yields
    them, and the WHERE clause if one is set; the arguments are the pending
    ones, the map's values in that same order, and those of the WHERE
    clause. *)
Theorem Update_statement (R : MapRange) (D : Driver) (st : State)
    (table : Schema) (m : gmap string value) (rest : list value) :
  clause_wf (clause (sess st)) →
  refTable (sess st) = Some table →
  let s := sess st in
  let entries := range_of R m in
  let q := statement s
             ("UPDATE " +:+ TableName table +:+ " SET " +:+
              Join ((λ k, k +:+ " = ?") <$> entries.*1) ", ")
             (entries.*2) in
  Update R D (VMap m :: rest) st
  = (Ok match sqldb.Exec D (trace st) (DB s) q.1 q.2 with
        | inr err => (0, Some err)
        | inl result => RowsAffected result
        end,
     mkState (set_clause clause.zero (set_sqlVars [] (set_sql "" s)))
             (trace st ++ [EvExec (DB s) q.1 q.2])).
Proof.
  intros Hwf Htable. cbv zeta.
  unfold Update. unfold bind at 1 2 3 4.
  unfold lift, index, RefTable, get, bind at 1, ret. simpl lookup.
  cbv beta iota. rewrite Htable. unfold deref, ret.
  rewrite (prepare_run R clause.UPDATE _ st
             ("UPDATE " +:+ TableName table +:+ " SET " +:+
              Join ((λ k, k +:+ " = ?") <$> (range_of R m).*1) ", ")
             ((range_of R m).*2)); [|done|done|].
  2:{ unfold clause.generators, clause._update. simpl.
      by rewrite ClauseFacts._update_loop_spec. }
  unfold bind. rewrite SessionFacts.Exec_run. simpl.
  rewrite <- after_call. unfold ret.
  by destruct (sqldb.Exec D _ _ _ _).
Qed.

Lemma Update_statement_witness :
  clause_wf (clause (sess bound_where))
  ∧ refTable (sess bound_where) = Some User_schema
  ∧ Update range_listed accepting [VMap {[ "Age" := VInt 30 ]}; VInt 5]
           bound_where
    = (Ok (1, None),
       mkState (sess bound)
               [EvExec (ViaDB 7%nat)
                       "UPDATE User SET Age = ? WHERE Name = ? "
                       [VInt 30; VStr "Tom"]]).
Proof.
  assert (H1 : clause_wf (clause (sess bound_where))) by (split; discriminate).
  assert (H2 : refTable (sess bound_where) = Some User_schema) by reflexivity.
  split; [exact H1|]. split; [exact H2|].
  exact (eq_trans (Update_statement range_listed accepting bound_where
                     User_schema {[ "Age" := VInt 30 ]} [VInt 5] H1 H2)
                  eq_refl).
Defined.

Lemma Update_pairs_alternating (n : nat) (pairs : list (string * value)) :
  ∀ (i : nat) (m : gmap string value),
    Update_pairs n i (alternating pairs) m
    = Ok (foldl (λ m kv, <[kv.1 := kv.2]> m) m pairs).
Proof.
  induction pairs as [|[k v] pairs IH]; intros i m; [done|].
  simpl. apply IH.
Qed.

(** X15. [Update] called with column names and values in turn does what it
    does when called with the map that those assignments build: a column
    named twice takes its last value. *)
Theorem Update_pairs_as_map (R : MapRange) (D : Driver) (st : State)
    (pairs : list (string * value)) :
  pairs ≠ [] →
  Update R D (alternating pairs) st = Update R D [VMap (assigned pairs)] st.
Proof.
  intros Hne. destruct pairs as [|[k v] pairs]; [done|].
  unfold Update. unfold bind at 1 2. unfold bind at 10 11.
  unfold lift, index. simpl lookup. cbv beta iota.
  by rewrite Update_pairs_alternating.
Qed.

Lemma Update_pairs_as_map_witness :
  [("Age", VInt 30); ("Age", VInt 31)] ≠ []
  ∧ Update range_listed accepting
           [VStr "Age"; VInt 30; VStr "Age"; VInt 31] bound_where
    = Update range_listed accepting [VMap {[ "Age" := VInt 31 ]}] bound_where.
Proof.
  assert (H : [("Age", VInt 30); ("Age", VInt 31)] ≠ []) by discriminate.
  split; [exact H|].
  exact (eq_trans (Update_pairs_as_map range_listed accepting bound_where
                     [("Age", VInt 30); ("Age", VInt 31)] H) eq_refl).
Defined.

(** X16. In a session with no model bound, the table operations and the
    record operations that read the bound table panic on the nil schema:
    they make no driver call and leave the session as it was. *)
Theorem operations_need_model (R : MapRange) (D : Driver)
    (Scan_int64 : Row → Z + error) (st : State) :
  refTable (sess st) = None →
  CreateTable D st = (Panic NilDereference, st)
  ∧ DropTable D st = (Panic NilDereference, st)
  ∧ HasTable D st = (Panic NilDereference, st)
  ∧ Delete R D st = (Panic NilDereference, st)
  ∧ Count R D Scan_int64 st = (Panic NilDereference, st)
  ∧ ∀ m rest, Update R D (VMap m :: rest) st = (Panic NilDereference, st).
Proof.
  intros Hnone.
  unfold CreateTable, DropTable, HasTable, Delete, Count, Update.
  unfold bind, RefTable, get, ret, lift, index. simpl.
  rewrite Hnone. by repeat split.
Qed.

Lemma operations_need_model_witness :
  refTable (sess fresh) = None
  ∧ Delete range_listed accepting fresh = (Panic NilDereference, fresh)
  ∧ CreateTable accepting fresh = (Panic NilDereference, fresh).
Proof.
  assert (H : refTable (sess fresh) = None) by reflexivity.
  split; [exact H|].
  pose proof (operations_need_model range_listed accepting Scan_count fresh H)
    as (Hc & _ & _ & Hd & _).
  split; [exact Hd | exact Hc].
Defined.

Lemma clause_with_comm (c : clause.Clause) (K1 K2 : clause.Type')
    (f1 f2 : string) (v1 v2 : list value) :
  K1 ≠ K2 →
  clause_with (clause_with c K1 f1 v1) K2 f2 v2
  = clause_with (clause_with c K2 f2 v2) K1 f1 v1.
Proof.
  intros Hne. unfold clause_with. simpl.
  by rewrite (insert_insert_ne _ K2 K1 f2 f1), (insert_insert_ne _ K2 K1 v2 v1).
Qed.

(** What the three chain calls do to a session. *)
Lemma Where_run (R : MapRange) (desc : string) (args : list value)
    (st : State) :
  clause_wf (clause (sess st)) →
  Where R desc args st
  = (Ok tt, mkState (set_clause (clause_with (clause (sess st)) clause.WHERE
                                   ("WHERE " +:+ desc) args) (sess st))
                    (trace st)).
Proof.
  intros Hwf. unfold Where.
  by rewrite (FirstFacts.on_clause_Set' R clause.WHERE
                ([VStr desc] ++ args) st ("WHERE " +:+ desc, args) Hwf eq_refl).
Qed.

Lemma OrderBy_run (R : MapRange) (desc : string) (st : State) :
  clause_wf (clause (sess st)) →
  OrderBy R desc st
  = (Ok tt, mkState (set_clause (clause_with (clause (sess st)) clause.ORDERBY
                                   ("ORDER BY " +:+ desc) []) (sess st))
                    (trace st)).
Proof.
  intros Hwf. unfold OrderBy.
  by rewrite (FirstFacts.on_clause_Set' R clause.ORDERBY [VStr desc] st
                ("ORDER BY " +:+ desc, []) Hwf eq_refl).
Qed.

Lemma Limit_run (R : MapRange) (num : Z) (st : State) :
  clause_wf (clause (sess st)) →
  Limit R num st
  = (Ok tt, mkState (set_clause (clause_with (clause (sess st)) clause.LIMIT
                                   "LIMIT ?" [VInt num]) (sess st))
                    (trace st)).
Proof.
  intros Hwf. unfold Limit.
  by rewrite (FirstFacts.on_clause_Set' R clause.LIMIT [VInt num] st
                ("LIMIT ?", [VInt num]) Hwf eq_refl).
Qed.

(** X17. [Where], [OrderBy] and [Limit] can be chained in any order: in
    each of the six orders they return, make no driver call, change
    nothing of the session but its clause set, and leave the same clause
    set, from which [Build] makes the WHERE, ORDER BY and LIMIT fragments
    in that order, with the arguments of [Where] followed by the limit. *)
Theorem chain_order (R : MapRange) (st : State) (desc : string)
    (args : list value) (by_ : string) (num : Z) :
  clause_wf (clause (sess st)) →
  ∃ st',
    (Where R desc args ;;; OrderBy R by_ ;;; Limit R num) st = (Ok tt, st')
    ∧ (Limit R num ;;; OrderBy R by_ ;;; Where R desc args) st = (Ok tt, st')
    ∧ (OrderBy R by_ ;;; Limit R num ;;; Where R desc args) st = (Ok tt, st')
    ∧ (Where R desc args ;;; Limit R num ;;; OrderBy R by_) st = (Ok tt, st')
    ∧ (Limit R num ;;; Where R desc args ;;; OrderBy R by_) st = (Ok tt, st')
    ∧ (OrderBy R by_ ;;; Where R desc args ;;; Limit R num) st = (Ok tt, st')
    ∧ same_but_clause (sess st) (sess st')
    ∧ trace st' = trace st
    ∧ (on_clause (clause.Build [clause.WHERE; clause.ORDERBY; clause.LIMIT])
                 st').1
      = Ok (Join ["WHERE " +:+ desc; "ORDER BY " +:+ by_; "LIMIT ?"] " ",
            args ++ [VInt num]).
Proof.
  intros Hwf.
  set (c := clause (sess st)).
  set (cw := λ c, clause_with c clause.WHERE ("WHERE " +:+ desc) args).
  set (co := λ c, clause_with c clause.ORDERBY ("ORDER BY " +:+ by_) []).
  set (cl := λ c, clause_with c clause.LIMIT "LIMIT ?" [VInt num]).
  set (stc := λ c1, mkState (set_clause c1 (sess st)) (trace st)).
  exists (stc (cl (co (cw c)))).
  assert (Hst : st = stc c) by (by destruct st as [[] ?]).
  assert (∀ c1 c2 : clause.Clause,
            mkState (set_clause c2 (sess (stc c1))) (trace (stc c1)) = stc c2)
    as Hset.
  { intros c1 c2. unfold stc. by destruct st as [[] ?]. }
  assert (HW : ∀ c1, clause_wf c1 →
                     Where R desc args (stc c1) = (Ok tt, stc (cw c1))).
  { intros c1 H1. rewrite Where_run by done. by rewrite Hset. }
  assert (HO : ∀ c1, clause_wf c1 →
                     OrderBy R by_ (stc c1) = (Ok tt, stc (co c1))).
  { intros c1 H1. rewrite OrderBy_run by done. by rewrite Hset. }
  assert (HL : ∀ c1, clause_wf c1 →
                     Limit R num (stc c1) = (Ok tt, stc (cl c1))).
  { intros c1 H1. rewrite Limit_run by done. by rewrite Hset. }
  assert (Hwf' : ∀ c1 K f v, clause_wf (clause_with c1 K f v))
    by apply FirstFacts.clause_with_wf.
  split; [|split; [|split; [|split; [|split; [|split; [|split; [|split]]]]]]].
  - rewrite Hst at 1.
    rewrite (MonadFacts.bind_Ok _ _ _ _ _ (HW c Hwf)).
    rewrite (MonadFacts.bind_Ok _ _ _ _ _ (HO (cw c) (Hwf' _ _ _ _))).
    by rewrite (HL (co (cw c)) (Hwf' _ _ _ _)).
  - rewrite Hst at 1.
    rewrite (MonadFacts.bind_Ok _ _ _ _ _ (HL c Hwf)).
    rewrite (MonadFacts.bind_Ok _ _ _ _ _ (HO (cl c) (Hwf' _ _ _ _))).
    rewrite (HW (co (cl c)) (Hwf' _ _ _ _)).
    do 2 f_equal. unfold cl, co, cw.
    rewrite (clause_with_comm _ clause.ORDERBY clause.WHERE) by done.
    rewrite (clause_with_comm c clause.LIMIT clause.WHERE) by done.
    by rewrite (clause_with_comm _ clause.LIMIT clause.ORDERBY) by done.
  - rewrite Hst at 1.
    rewrite (MonadFacts.bind_Ok _ _ _ _ _ (HO c Hwf)).
    rewrite (MonadFacts.bind_Ok _ _ _ _ _ (HL (co c) (Hwf' _ _ _ _))).
    rewrite (HW (cl (co c)) (Hwf' _ _ _ _)).
    do 2 f_equal. unfold cl, co, cw.
    rewrite (clause_with_comm _ clause.LIMIT clause.WHERE) by done.
    by rewrite (clause_with_comm c clause.ORDERBY clause.WHERE) by done.
  - rewrite Hst at 1.
    rewrite (MonadFacts.bind_Ok _ _ _ _ _ (HW c Hwf)).
    rewrite (MonadFacts.bind_Ok _ _ _ _ _ (HL (cw c) (Hwf' _ _ _ _))).
    rewrite (HO (cl (cw c)) (Hwf' _ _ _ _)).
    do 2 f_equal. unfold cl, co, cw.
    by rewrite (clause_with_comm _ clause.LIMIT clause.ORDERBY) by done.
  - rewrite Hst at 1.
    rewrite (MonadFacts.bind_Ok _ _ _ _ _ (HL c Hwf)).
    rewrite (MonadFacts.bind_Ok _ _ _ _ _ (HW (cl c) (Hwf' _ _ _ _))).
    rewrite (HO (cw (cl c)) (Hwf' _ _ _ _)).
    do 2 f_equal. unfold cl, co, cw.
    rewrite (clause_with_comm c clause.LIMIT clause.WHERE) by done.
    by rewrite (clause_with_comm _ clause.LIMIT clause.ORDERBY) by done.
  - rewrite Hst at 1.
    rewrite (MonadFacts.bind_Ok _ _ _ _ _ (HO c Hwf)).
    rewrite (MonadFacts.bind_Ok _ _ _ _ _ (HW (co c) (Hwf' _ _ _ _))).
    rewrite (HL (cw (co c)) (Hwf' _ _ _ _)).
    do 2 f_equal. unfold cl, co, cw.
    by rewrite (clause_with_comm c clause.ORDERBY clause.WHERE) by done.
  - unfold stc. by destruct st as [[] ?].
  - done.
  - rewrite MonadFacts.on_clause_Build. simpl.
    replace (clause (set_clause (cl (co (cw c))) (sess st)))
      with (cl (co (cw c))) by (by destruct st as [[] ?]).
    unfold cl, co, cw.
    rewrite !FirstFacts.fragments_cons, !FirstFacts.parameters_cons.
    rewrite !FirstFacts.clause_with_sql, !FirstFacts.clause_with_sqlVars.
    done.
Qed.

Lemma chain_order_witness :
  clause_wf (clause (sess bound))
  ∧ (Limit range_listed 3 ;;; OrderBy range_listed "Age" ;;;
     Where range_listed "Age > ?" [VInt 18]) bound
    = (Where range_listed "Age > ?" [VInt 18] ;;; OrderBy range_listed "Age" ;;;
       Limit range_listed 3) bound.
Proof.
  assert (H : clause_wf (clause (sess bound))) by done.
  split; [exact H|].
  destruct (chain_order range_listed bound "Age > ?" [VInt 18] "Age" 3 H)
    as (st' & H1 & H2 & _).
  exact (eq_trans H2 (eq_sym H1)).
Defined.

End RecordFacts.


(** ** Verification: Insert *)

Module InsertFacts.
Import dialect schema sqldb session geeorm spec spec_more.
Import record.

Local Arguments fragments : simpl never.
Local Arguments parameters : simpl never.
Local Arguments clause_with : simpl never.
Local Arguments Join : simpl never.
Local Arguments String.append : simpl never.

Lemma RecordValues_loop_length (dest : instance) (fields : list Field) :
  ∀ acc row,
    RecordValues_loop dest fields acc = Ok row →
    length row = (length acc + length fields)%nat.
Proof.
  induction fields as [|f fields IH]; intros acc row; simpl.
  - intros [= <-]. lia.
  - destruct (dest !! Name f); [|done]. intros H. apply IH in H.
    rewrite length_app in H. simpl in H. lia.
Qed.

Lemma clause_with_again (c : clause.Clause) (K : clause.Type')
    (frag : string) (vars : list value) :
  clause_with (clause_with c K frag vars) K frag vars
  = clause_with c K frag vars.
Proof. unfold clause_with. simpl. by rewrite !insert_insert_eq. Qed.

(** The INSERT fragment for a table. *)
Lemma insert_fragment (R : MapRange) (table : Schema) :
  clause.generators R clause.INSERT
    [VStr (TableName table); VStrs (FieldNames table)]
  = Ok ("INSERT INTO " +:+ TableName table +:+ " (" +:+
        Join (FieldNames table) ", " +:+ ")", []).
Proof. reflexivity. Qed.

(** One round of the loop of [Insert]. *)
Lemma Insert_loop_step (R : MapRange) (table : Schema) (v : record)
    (row : list value) (rest : list record) (acc : list value) (st : State) :
  session_wf (sess st) →
  Parse (rec_object v) (session.dialect (sess st)) = Ok table →
  RecordValues table (rec_fields v) = Ok row →
  Insert_loop R (v :: rest) acc st
  = Insert_loop R rest (acc ++ [VSlice row])
      (mkState (set_clause
                  (clause_with (clause (sess st)) clause.INSERT
                     ("INSERT INTO " +:+ TableName table +:+ " (" +:+
                      Join (FieldNames table) ", " +:+ ")") [])
                  (set_refTable (Some table) (sess st)))
               (trace st)).
Proof.
  intros Hwf Hparse Hrow. cbn [Insert_loop].
  rewrite (MonadFacts.bind_Ok _ _ _ _ _
             (FirstFacts.Model_run _ st table Hwf Hparse)).
  set (st1 := mkState (set_refTable (Some table) (sess st)) (trace st)).
  rewrite (MonadFacts.bound_table _ st1 table eq_refl).
  rewrite (MonadFacts.bind_Ok _ _ _ _ _
             (FirstFacts.on_clause_Set' R clause.INSERT _ st1 _
                (proj1 Hwf) (insert_fragment R table))).
  unfold bind, lift. by rewrite Hrow.
Qed.

Lemma Parse_Model (obj : object) (d : Dialect) (table : Schema) :
  Parse obj d = Ok table → schema.Model table = obj.
Proof. intros H. by apply SessionFacts.Parse_loop_Model in H. Qed.

(** The loop of [Insert] on records of one type, which the dialect maps. *)
Lemma Insert_loop_run (R : MapRange) (obj : object) (table : Schema)
    (records : list record) (rows : list (list value)) :
  Forall2 (λ v row, rec_object v = obj
                    ∧ RecordValues table (rec_fields v) = Ok row)
          records rows →
  records ≠ [] →
  ∀ (acc : list value) (st : State),
    session_wf (sess st) →
    Parse obj (session.dialect (sess st)) = Ok table →
    Insert_loop R records acc st
    = (Ok (acc ++ (VSlice <$> rows)),
       mkState (set_clause
                  (clause_with (clause (sess st)) clause.INSERT
                     ("INSERT INTO " +:+ TableName table +:+ " (" +:+
                      Join (FieldNames table) ", " +:+ ")") [])
                  (set_refTable (Some table) (sess st)))
               (trace st)).
Proof.
  induction 1 as [|v row records rows [Hobj Hrow] Hall IH]; [done|].
  intros _ acc st Hwf Hparse. subst obj.
  rewrite (Insert_loop_step R table v row records acc st Hwf Hparse Hrow).
  destruct records as [|v' records].
  { by apply Forall2_nil_inv_l in Hall as ->. }
  rewrite IH; [|done| |done].
  - rewrite <- app_assoc. f_equal. f_equal.
    destruct st as [[db0 sql0 vars0 d0 ref0 c0 tx0] tr0].
    cbv beta iota delta [set_sql set_sqlVars set_clause set_refTable
                         session.db sql sqlVars session.dialect refTable
                         clause tx sess trace].
    by rewrite clause_with_again.
  - split; [apply FirstFacts.clause_with_wf|].
    intros t [= <-]. by rewrite (Parse_Model _ _ _ Hparse).
Qed.

(** X18. [Insert] of one or more records of one type, in a session whose
    dialect maps that type: the session is bound to the type's table, and
    one driver call executes the pending statement followed by
    [INSERT INTO] the table with its column names and [VALUES] with one
    group of placeholders per record, a placeholder per column; the
    arguments are the pending ones and then the records' column values,
    record after record. [Insert] returns the driver's error with a count
    of 0, or what [RowsAffected] gives. *)
Theorem Insert_statement (R : MapRange) (D : Driver) (st : State)
    (obj : object) (table : Schema) (records : list record)
    (rows : list (list value)) :
  session_wf (sess st) →
  Parse obj (session.dialect (sess st)) = Ok table →
  records ≠ [] →
  Forall2 (λ v row, rec_object v = obj
                    ∧ RecordValues table (rec_fields v) = Ok row)
          records rows →
  let s := sess st in
  let q := (sql s +:+
            Join ["INSERT INTO " +:+ TableName table +:+ " (" +:+
                  Join (FieldNames table) ", " +:+ ")";
                  "VALUES " +:+
                  Join (replicate (length records)
                          ("(" +:+
                           clause.genBindVars (length (FieldNames table))
                           +:+ ")")) ", "] " ") +:+ " " in
  let args := sqlVars s ++ concat rows in
  Insert R D records st
  = (Ok match sqldb.Exec D (trace st) (DB s) q args with
        | inr err => (0, Some err)
        | inl result => RowsAffected result
        end,
     mkState (set_refTable (Some table)
                (set_clause clause.zero (set_sqlVars [] (set_sql "" s))))
             (trace st ++ [EvExec (DB s) q args])).
Proof.
  intros Hwf Hparse Hne Hall. cbv zeta. unfold Insert.
  rewrite (MonadFacts.bind_Ok _ _ _ _ _
             (Insert_loop_run R obj table records rows Hall Hne [] st
                Hwf Hparse)).
  set (ins := "INSERT INTO " +:+ TableName table +:+ " (" +:+
              Join (FieldNames table) ", " +:+ ")").
  set (c1 := clause_with (clause (sess st)) clause.INSERT ins []).
  set (st1 := mkState (set_clause c1 (set_refTable (Some table) (sess st)))
                      (trace st)).
  assert (Hlen : Forall (λ r, length r = length (FieldNames table)) rows).
  { destruct (RecordValuesFacts.Parse_consistent _ _ _ Hparse) as (-> & _).
    rewrite length_fmap. clear Hne.
    induction Hall as [|v row records rows [_ Hrow] _ IH]; constructor; [|done].
    by apply RecordValues_loop_length in Hrow. }
  pose proof (GeneratorFacts._values_uniform _ rows Hlen) as Hvalues.
  rewrite <- (Forall2_length _ _ _ Hall) in Hvalues.
  set (vals := "VALUES " +:+
               Join (replicate (length records)
                       ("(" +:+ clause.genBindVars (length (FieldNames table))
                        +:+ ")")) ", ") in *.
  rewrite (MonadFacts.bind_Ok _ _ _ _ _
             (FirstFacts.on_clause_Set' R clause.VALUES _ st1 (vals, concat rows)
                (FirstFacts.clause_with_wf _ _ _ _) Hvalues)).
  set (st2 := mkState _ _).
  rewrite (MonadFacts.bind_Ok _ _ _ _ _ (MonadFacts.on_clause_Build _ st2)).
  replace (clause (sess st2))
    with (clause_with c1 clause.VALUES vals (concat rows)) by reflexivity.
  assert (fragments (clause_with c1 clause.VALUES vals (concat rows))
                    [clause.INSERT; clause.VALUES] = [ins; vals]
          ∧ parameters (clause_with c1 clause.VALUES vals (concat rows))
                       [clause.INSERT; clause.VALUES] = concat rows)
    as [-> ->].
  { unfold c1.
    rewrite !FirstFacts.fragments_cons, !FirstFacts.parameters_cons.
    rewrite !FirstFacts.clause_with_sql, !FirstFacts.clause_with_sqlVars.
    simpl. by rewrite app_nil_r. }
  destruct st as [[db0 sql0 vars0 d0 ref0 c0 tx0] tr0].
  unfold st2, st1, Raw, bind, update, modify, DB.
  rewrite SessionFacts.Exec_run.
  cbv beta iota delta [set_sql set_sqlVars set_clause set_refTable
                       session.db sql sqlVars session.dialect refTable
                       clause tx sess trace fst snd DB ret].
  by destruct (sqldb.Exec D _ _ _ _).
Qed.

Lemma Insert_statement_witness :
  session_wf (sess fresh)
  ∧ Parse (mkObject true User) (session.dialect (sess fresh)) = Ok User_schema
  ∧ [Tom; Sam] ≠ []
  ∧ Insert range_listed accepting [Tom; Sam] fresh
    = (Ok (1, None),
       mkState (sess bound)
               [EvExec (ViaDB 7%nat)
                       "INSERT INTO User (Name, Age) VALUES (?, ?), (?, ?) "
                       [VStr "Tom"; VInt 18; VStr "Sam"; VInt 25]]).
Proof.
  assert (H1 : session_wf (sess fresh)) by apply SessionFacts.New_wf.
  assert (H2 : [Tom; Sam] ≠ []) by discriminate.
  split; [exact H1|]. split; [reflexivity|]. split; [exact H2|].
  refine (eq_trans (Insert_statement range_listed accepting fresh
                      (mkObject true User) User_schema [Tom; Sam]
                      [[VStr "Tom"; VInt 18]; [VStr "Sam"; VInt 25]]
                      H1 eq_refl H2 _) eq_refl).
  repeat constructor.
Defined.

End InsertFacts.


(** ** Verification: transactions, pending statements and the bound model *)

Module SessionMoreFacts.
Import dialect schema sqldb session geeorm spec spec_more.

Local Arguments Join : simpl never.
Local Arguments String.append : simpl never.

(** X19. [Begin] decides where the statements that follow go: when the
    driver opens a transaction they go through it, also if another
    transaction was open; when the driver refuses, the session's handle is
    dropped and they go through the plain connection, also if a
    transaction was open. *)
Theorem Begin_routes_statements (D : Driver) (s : Session) (tr : list event) :
  let st := mkState s tr in
  let via := match sqldb.Begin D tr (session.db s) with
             | inl t => ViaTx t
             | inr _ => ViaDB (session.db s)
             end in
  DB (sess (Begin D st).2) = via
  ∧ trace ((Begin D ;;; Exec D) st).2
    = tr ++ [EvBegin (session.db s); EvExec via (sql s) (sqlVars s)]
  ∧ trace ((Begin D ;;; QueryRows D) st).2
    = tr ++ [EvBegin (session.db s); EvQuery via (sql s) (sqlVars s)].
Proof.
  cbv zeta. unfold bind. rewrite EngineFacts.Begin_run.
  destruct (sqldb.Begin D tr (session.db s)) as [t|err];
    rewrite SessionFacts.Exec_run, SessionFacts.QueryRows_run; simpl;
    by rewrite <- !app_assoc.
Qed.

(** X20. [Commit] and [Rollback] on a session with no transaction, a new
    one or one whose [Begin] the driver refused, panic on the nil handle
    and make no driver call. *)
Theorem Commit_needs_transaction (D : Driver) (st : State) :
  (tx (sess st) = None →
   Commit D st = (Panic NilDereference, st)
   ∧ Rollback D st = (Panic NilDereference, st))
  ∧ (∀ err, sqldb.Begin D (trace st) (session.db (sess st)) = inr err →
            (Begin D ;;; Commit D) st = (Panic NilDereference, (Begin D st).2)
            ∧ (Begin D ;;; Rollback D) st
              = (Panic NilDereference, (Begin D st).2)
            ∧ trace (Begin D st).2 = trace st ++ [EvBegin (session.db (sess st))]).
Proof.
  split.
  - intros Hnone. unfold Commit, Rollback, bind, get. simpl. by rewrite Hnone.
  - intros err Herr. destruct st as [s tr]. unfold bind.
    rewrite EngineFacts.Begin_run. simpl in *. by rewrite Herr.
Qed.

Lemma Commit_needs_transaction_witness :
  tx (sess fresh) = None
  ∧ sqldb.Begin refusing (trace fresh) (session.db (sess fresh))
    = inr (DriverError "refused")
  ∧ Commit accepting fresh = (Panic NilDereference, fresh)
  ∧ ((Begin refusing ;;; Rollback refusing) fresh).1 = Panic NilDereference.
Proof.
  assert (H1 : tx (sess fresh) = None) by reflexivity.
  assert (H2 : sqldb.Begin refusing (trace fresh) (session.db (sess fresh))
               = inr (DriverError "refused")) by reflexivity.
  split; [exact H1|]. split; [exact H2|]. split.
  - exact (proj1 (proj1 (Commit_needs_transaction accepting fresh) H1)).
  - exact (f_equal fst
             (proj1 (proj2 (proj2 (Commit_needs_transaction refusing fresh)
                                  _ H2)))).
Defined.

(** X21. [Commit] and [Rollback] leave the session's handle on the
    transaction they closed: a statement executed afterwards is still sent
    through that transaction. *)
Theorem statement_after_Commit (D : Driver) (st : State) (t : sqlTx) :
  tx (sess st) = Some t →
  let s := sess st in
  sess (Commit D st).2 = s
  ∧ sess (Rollback D st).2 = s
  ∧ trace ((Commit D ;;; Exec D) st).2
    = trace st ++ [EvCommit t; EvExec (ViaTx t) (sql s) (sqlVars s)]
  ∧ trace ((Rollback D ;;; Exec D) st).2
    = trace st ++ [EvRollback t; EvExec (ViaTx t) (sql s) (sqlVars s)].
Proof.
  intros Ht. cbv zeta. unfold bind.
  rewrite (EngineFacts.Commit_run D st t Ht).
  rewrite (EngineFacts.Rollback_run D st t Ht).
  rewrite !SessionFacts.Exec_run. unfold DB. simpl. rewrite Ht.
  by rewrite <- !app_assoc.
Qed.

Lemma statement_after_Commit_witness :
  tx (sess (mkState (set_tx (Some 3%nat) (sess bound)) [])) = Some 3%nat
  ∧ trace ((Commit accepting ;;; Exec accepting)
             (mkState (set_tx (Some 3%nat) (sess bound)) [])).2
    = [EvCommit 3%nat; EvExec (ViaTx 3%nat) "" []].
Proof.
  split; [reflexivity|].
  exact (proj1 (proj2 (proj2
           (statement_after_Commit accepting
              (mkState (set_tx (Some 3%nat) (sess bound)) []) 3%nat
              eq_refl)))).
Defined.

Lemma Raw_run (q : string) (values : list value) (st : State) :
  Raw q values st
  = (Ok tt,
     mkState (set_sqlVars (sqlVars (sess st) ++ values)
                (set_sql ((sql (sess st) +:+ q) +:+ " ") (sess st)))
             (trace st)).
Proof. by destruct st as [[] ?]. Qed.

(** [Model] by cases. *)
Lemma Model_cases (value : object) (st : State) :
  Model value st
  = let parse :=
      match Parse value (session.dialect (sess st)) with
      | Ok t => (Ok tt, mkState (set_refTable (Some t) (sess st)) (trace st))
      | Panic p => (Panic p, st)
      end in
    match refTable (sess st) with
    | Some t0 => if decide (value ≠ schema.Model t0) then parse else (Ok tt, st)
    | None => parse
    end.
Proof.
  unfold Model, bind, get, lift, update, modify, ret. cbv beta iota zeta.
  destruct (refTable (sess st)) as [t0|];
    [destruct (decide (value ≠ schema.Model t0)); [|done]|];
    by destruct (Parse value (session.dialect (sess st))).
Qed.

(** X22. [Model] either panics, as [Parse] does, and leaves the session
    as it was, or returns with the session bound to a schema of the value
    and nothing else changed; a second [Model] of the same value then
    changes nothing, parsing being skipped. *)
Theorem Model_binds (value : object) (st : State) :
  (Model value ;;; Model value) st = Model value st
  ∧ match (Model value st).1 with
    | Panic p =>
        (Model value st).2 = st
        ∧ Parse value (session.dialect (sess st)) = Panic p
    | Ok _ =>
        ∃ t, schema.Model t = value
             ∧ (Model value st).2
               = mkState (set_refTable (Some t) (sess st)) (trace st)
    end.
Proof.
  assert (∀ t, Parse value (session.dialect (sess st)) = Ok t →
               schema.Model t = value) as Hmodel.
  { intros t Ht. by apply SessionFacts.Parse_loop_Model in Ht. }
  assert (∀ t, schema.Model t = value →
               Model value (mkState (set_refTable (Some t) (sess st))
                                    (trace st))
               = (Ok tt, mkState (set_refTable (Some t) (sess st))
                                 (trace st))) as Hagain.
  { intros t Ht. rewrite Model_cases. simpl.
    rewrite decide_False; [done|]. rewrite Ht. by intros ?. }
  unfold bind. rewrite (Model_cases value st). cbv zeta.
  destruct (refTable (sess st)) as [t0|] eqn:Href.
  - destruct (decide (value ≠ schema.Model t0)) as [Hne|Heq].
    + destruct (Parse value (session.dialect (sess st))) as [t|p] eqn:Hp;
        [|done].
      simpl. split; [by apply Hagain, Hmodel|].
      exists t. split; [by apply Hmodel | done].
    + apply dec_stable in Heq. simpl. split.
      * rewrite Model_cases, Href. simpl. rewrite decide_False; [done|].
        by intros ?.
      * exists t0. split; [done|]. destruct st as [[] ?]. simpl in *.
        by subst.
  - destruct (Parse value (session.dialect (sess st))) as [t|p] eqn:Hp;
      [|done].
    simpl. split; [by apply Hagain, Hmodel|].
    exists t. split; [by apply Hmodel | done].
Qed.

(** The table operations in a session bound to [table]. *)
Lemma CreateTable_run (D : Driver) (st : State) (table : Schema) :
  refTable (sess st) = Some table →
  let s := sess st in
  let columns :=
    (λ f, Name f +:+ " " +:+ Type_ f +:+ " " +:+ Tag f) <$> Fields table in
  let q := (sql s +:+ ("CREATE TABLE " +:+ TableName table +:+ " (" +:+
                       Join columns "," +:+ ");")) +:+ " " in
  CreateTable D st
  = (Ok (err_of (sqldb.Exec D (trace st) (DB s) q (sqlVars s ++ []))),
     mkState (set_clause clause.zero (set_sqlVars [] (set_sql "" s)))
             (trace st ++ [EvExec (DB s) q (sqlVars s ++ [])])).
Proof.
  intros Ht. cbv zeta. unfold CreateTable.
  rewrite (MonadFacts.bound_table _ st table Ht).
  destruct st as [[db0 sql0 vars0 d0 ref0 c0 tx0] tr0]. reflexivity.
Qed.

Lemma DropTable_run (D : Driver) (st : State) (table : Schema) :
  refTable (sess st) = Some table →
  let s := sess st in
  let q := (sql s +:+ ("DROP TABLE IF EXISTS " +:+ TableName table))
           +:+ " " in
  DropTable D st
  = (Ok (err_of (sqldb.Exec D (trace st) (DB s) q (sqlVars s ++ []))),
     mkState (set_clause clause.zero (set_sqlVars [] (set_sql "" s)))
             (trace st ++ [EvExec (DB s) q (sqlVars s ++ [])])).
Proof.
  intros Ht. cbv zeta. unfold DropTable.
  rewrite (MonadFacts.bound_table _ st table Ht).
  destruct st as [[db0 sql0 vars0 d0 ref0 c0 tx0] tr0]. reflexivity.
Qed.

Lemma HasTable_run (D : Driver) (st : State) (table : Schema) :
  refTable (sess st) = Some table →
  let s := sess st in
  let probe := TableExistSQL (session.dialect s) (TableName table) in
  let q := (sql s +:+ probe.1) +:+ " " in
  let args := sqlVars s ++ probe.2 in
  let row := sqldb.QueryRow D (trace st) (ViaDB (session.db s)) q args in
  HasTable D st
  = (Ok (bool_decide (match Scan_string row with inl v => v | inr _ => "" end
                      = TableName table)),
     mkState (set_clause clause.zero (set_sqlVars [] (set_sql "" s)))
             (trace st ++ [EvQueryRow (ViaDB (session.db s)) q args])).
Proof.
  intros Ht. cbv zeta. unfold HasTable.
  unfold bind at 1. unfold get at 1.
  rewrite (MonadFacts.bound_table _ st table Ht).
  destruct st as [[db0 sql0 vars0 d0 ref0 c0 tx0] tr0].
  simpl in Ht. subst ref0.
  cbv beta iota delta [sess session.dialect].
  destruct (TableExistSQL d0 (TableName table)) as [q0 args0].
  reflexivity.
Qed.

(** X23. In a session bound to a table, [CreateTable] executes, after what
    is pending, [CREATE TABLE] with one entry per column, its name, type
    and tag separated by spaces, the entries joined by commas;
    [DropTable] executes [DROP TABLE IF EXISTS] the table. Each makes that
    one driver call, returns the driver's error if any, and clears the
    session. *)
Theorem table_statements (D : Driver) (st : State) (table : Schema) :
  refTable (sess st) = Some table →
  let s := sess st in
  let columns :=
    (λ f, Name f +:+ " " +:+ Type_ f +:+ " " +:+ Tag f) <$> Fields table in
  let create := (sql s +:+ ("CREATE TABLE " +:+ TableName table +:+ " (" +:+
                            Join columns "," +:+ ");")) +:+ " " in
  let drop := (sql s +:+ ("DROP TABLE IF EXISTS " +:+ TableName table))
              +:+ " " in
  let after := set_clause clause.zero (set_sqlVars [] (set_sql "" s)) in
  CreateTable D st
  = (Ok (err_of (sqldb.Exec D (trace st) (DB s) create (sqlVars s ++ []))),
     mkState after (trace st ++ [EvExec (DB s) create (sqlVars s ++ [])]))
  ∧ DropTable D st
    = (Ok (err_of (sqldb.Exec D (trace st) (DB s) drop (sqlVars s ++ []))),
       mkState after (trace st ++ [EvExec (DB s) drop (sqlVars s ++ [])])).
Proof.
  intros Ht. split; [by apply CreateTable_run | by apply DropTable_run].
Qed.

Lemma table_statements_witness :
  refTable (sess bound) = Some User_schema
  ∧ CreateTable refusing bound
    = (Ok (Some (DriverError "refused")),
       mkState (sess bound)
         [EvExec (ViaDB 7%nat)
            "CREATE TABLE User (Name text PRIMARY KEY,Age integer ); " []])
  ∧ trace (DropTable accepting bound).2
    = [EvExec (ViaDB 7%nat) "DROP TABLE IF EXISTS User " []].
Proof.
  split; [reflexivity|]. split.
  - exact (eq_trans (proj1 (table_statements refusing bound User_schema
                              eq_refl)) eq_refl).
  - exact (eq_trans (f_equal (λ r, trace r.2)
                       (proj2 (table_statements accepting bound User_schema
                                 eq_refl))) eq_refl).
Defined.

(** X24. In a session bound to a table, [HasTable] makes one driver call,
    the dialect's existence query after what is pending, through the plain
    connection. It answers true exactly when the row scans to the table's
    name, or the scan fails and the table's name is empty. *)
Theorem HasTable_answers (D : Driver) (st : State) (table : Schema) :
  refTable (sess st) = Some table →
  let s := sess st in
  let probe := TableExistSQL (session.dialect s) (TableName table) in
  let q := (sql s +:+ probe.1) +:+ " " in
  let args := sqlVars s ++ probe.2 in
  let row := sqldb.QueryRow D (trace st) (ViaDB (session.db s)) q args in
  ∃ b, (HasTable D st).1 = Ok b
       ∧ (b = true ↔
          Scan_string row = inl (TableName table)
          ∨ (∃ err, Scan_string row = inr err) ∧ TableName table = "")
       ∧ trace (HasTable D st).2
         = trace st ++ [EvQueryRow (ViaDB (session.db s)) q args].
Proof.
  intros Ht. cbv zeta. rewrite (HasTable_run D st table Ht). cbv zeta.
  eexists. split; [reflexivity|]. split; [|reflexivity].
  rewrite bool_decide_eq_true.
  destruct (Scan_string _) as [v|err].
  - split; [intros ->; by left | intros [[= ->] | [[? [=]] _]]; done].
  - split; [intros <-; right; eauto | intros [[=] | [_ ->]]; done].
Qed.

Lemma HasTable_answers_witness :
  refTable (sess bound) = Some User_schema
  ∧ (HasTable accepting bound).1 = Ok true
  ∧ (HasTable refusing bound).1 = Ok false
  ∧ trace (HasTable accepting (mkState (set_tx (Some 3%nat) (sess bound)) [])).2
    = [EvQueryRow (ViaDB 7%nat)
         "SELECT name FROM sqlite_master WHERE type='table' and name = ? "
         [VStr "User"]].
Proof.
  split; [reflexivity|]. split; [reflexivity|]. split; [reflexivity|].
  destruct (HasTable_answers accepting
              (mkState (set_tx (Some 3%nat) (sess bound)) []) User_schema
              eq_refl) as (b & _ & _ & Htrace).
  exact Htrace.
Defined.

Lemma Transaction_begin_fails_witness :
  sqldb.Begin refusing [] (db engine0) = inr (DriverError "refused")
  ∧ Transaction refusing engine0 create_user []
    = (Ok (VNil, Some (DriverError "refused")), [EvBegin 7%nat]).
Proof.
  split; [reflexivity|].
  exact (EngineFacts.Transaction_begin_fails refusing engine0 create_user []
           (DriverError "refused") eq_refl).
Defined.

End SessionMoreFacts.


(** ** Verification: Find *)

Module FindFacts.
Import dialect schema sqldb session geeorm spec spec_more.

Local Arguments fragments : simpl never.
Local Arguments parameters : simpl never.
Local Arguments clause_with : simpl never.
Local Arguments Join : simpl never.
Local Arguments String.append : simpl never.

(** The loop of [Find] stops at the first row that does not scan. *)
Lemma Find_loop_stops (T : StructType) (table : Schema)
    (good : list ScanRow) (bad : ScanRow) (rest : list ScanRow)
    (close : option error) (rs : list (list value)) (err : error) :
  field_addrs (New_Elem T) (FieldNames table) = Ok (FieldNames table) →
  Forall2 (λ row cols, Scan row (length (FieldNames table)) = inl cols)
          good rs →
  Scan bad (length (FieldNames table)) = inr err →
  ∀ destValue,
    Find_loop T table (good ++ bad :: rest) close destValue
    = Ok (Some err,
          destValue ++ (store (New_Elem T) (FieldNames table) <$> rs)).
Proof.
  intros Haddrs Hall Hbad. induction Hall as [|row cols good rs Hrow _ IH];
    intros destValue; simpl.
  - rewrite Haddrs. simpl. by rewrite Hbad, app_nil_r.
  - rewrite Haddrs. simpl. rewrite Hrow, IH. by rewrite <- app_assoc.
Qed.

(** What [Build] makes of the clause set of [Find]. *)
Lemma Build_Find (c : clause.Clause) (sel : string) :
  let c2 := clause_with c clause.SELECT sel [] in
  let kinds := [clause.WHERE; clause.ORDERBY; clause.LIMIT] in
  fragments c2 (clause.SELECT :: kinds) = [sel] ++ fragments c kinds
  ∧ parameters c2 (clause.SELECT :: kinds) = parameters c kinds.
Proof.
  cbv zeta.
  rewrite !FirstFacts.fragments_cons, !FirstFacts.parameters_cons.
  rewrite !FirstFacts.clause_with_sql, !FirstFacts.clause_with_sqlVars. simpl.
  destruct (clause.map_read (clause.sql c) clause.WHERE);
    destruct (clause.map_read (clause.sql c) clause.ORDERBY);
    destruct (clause.map_read (clause.sql c) clause.LIMIT); done.
Qed.

(** X25. In a well-formed session whose dialect maps the element type,
    [Find] makes one driver call: the query of what is pending, followed by
    the SELECT of the table's columns and the WHERE, ORDER BY and LIMIT
    clauses that are set. If the driver reports an error [Find] returns it
    and leaves the destination. Otherwise it appends one element per row to
    what the destination holds, in the cursor's order: when every row
    scans, it returns what [Close] returns; at the first row that does not
    scan it returns that error, the rows before it appended. *)
Theorem Find_collects (R : MapRange) (D : Driver) (T : StructType)
    (destValue : list instance) (st : State) :
  session_wf (sess st) →
  mapped (session.dialect (sess st)) T →
  let s := sess st in
  let kinds := [clause.WHERE; clause.ORDERBY; clause.LIMIT] in
  ∃ table : Schema,
    Parse (mkObject false T) (session.dialect s) = Ok table
    ∧ let q := (sql s +:+
                Join (["SELECT " +:+ Join (FieldNames table) ", " +:+
                       " FROM " +:+ TableName table]
                      ++ fragments (clause s) kinds) " ") +:+ " " in
      let args := sqlVars s ++ parameters (clause s) kinds in
      let n := length (FieldNames table) in
      let elems := fmap (M := list) (store (New_Elem T) (FieldNames table)) in
      trace (Find R D T destValue st).2 = trace st ++ [EvQuery (DB s) q args]
      ∧ match sqldb.Query D (trace st) (DB s) q args with
        | inr err => (Find R D T destValue st).1 = Ok (Some err, destValue)
        | inl rows =>
            (∀ rs, Forall2 (λ row cols, Scan row n = inl cols) (Next rows) rs →
                   (Find R D T destValue st).1
                   = Ok (Close rows, destValue ++ elems rs))
            ∧ (∀ good bad rest rs err,
                 Next rows = good ++ bad :: rest →
                 Forall2 (λ row cols, Scan row n = inl cols) good rs →
                 Scan bad n = inr err →
                 (Find R D T destValue st).1
                 = Ok (Some err, destValue ++ elems rs))
        end.
Proof.
  intros Hwf Hmap. cbv zeta.
  destruct (SchemaFacts.Parse_mapped _ (mkObject false T) Hmap)
    as (table & Hparse & Hname & Hnames).
  exists table. split; [done|].
  pose proof (FirstFacts.Find_run R D T destValue st table Hwf Hparse) as Hfind.
  cbv zeta in Hfind.
  destruct (Build_Find (clause (sess st))
              ("SELECT " +:+ Join (FieldNames table) ", " +:+ " FROM " +:+
               TableName table)) as [Hfrag Hpar].
  rewrite Hfrag, Hpar in Hfind. rewrite Hfind. simpl.
  split; [done|].
  assert (Haddrs : field_addrs (New_Elem T) (FieldNames table)
                   = Ok (FieldNames table)).
  { apply FirstFacts.field_addrs_all. intros name Hin.
    apply FirstFacts.New_Elem_field.
    rewrite Hnames in Hin. simpl in Hin.
    apply list_elem_of_fmap in Hin as (p & -> & Hp).
    apply list_elem_of_fmap. exists p. split; [done|].
    by apply list_elem_of_filter in Hp as [_ Hp]. }
  destruct (sqldb.Query D _ _ _ _) as [rows|err]; [|done].
  split.
  - intros rs Hrows.
    by rewrite (FirstFacts.Find_loop_delivers T table _ _ rs Haddrs Hrows).
  - intros good bad rest rs err Hnext Hgood Hbad. rewrite Hnext.
    by rewrite (Find_loop_stops T table good bad rest _ rs err Haddrs Hgood Hbad).
Qed.

Lemma Find_collects_witness :
  session_wf (sess fresh)
  ∧ mapped (session.dialect (sess fresh)) User
  ∧ (Find range_listed half_scanning User [] fresh).1
    = Ok (Some (DriverError "converting NULL to int is unsupported"),
          [store (New_Elem User) ["Name"; "Age"] [VStr "Tom"; VInt 18]]).
Proof.
  split; [apply SessionFacts.New_wf|].
  split; [exact SchemaFacts.User_mapped|].
  destruct (Find_collects range_listed half_scanning User [] fresh
              (SessionFacts.New_wf _ _) SchemaFacts.User_mapped)
    as (table & Hparse & _ & _ & Hstop).
  vm_compute in Hparse. injection Hparse as <-.
  apply (Hstop [mkScanRow [VStr "Tom"; VInt 18] None]
               (mkScanRow [VStr "Sam"; VNil]
                  (Some (DriverError "converting NULL to int is unsupported")))
               [mkScanRow [VStr "Ann"; VInt 30] None]
               [[VStr "Tom"; VInt 18]]).
  - reflexivity.
  - repeat constructor.
  - reflexivity.
Defined.

End FindFacts.


(** ** Verification: the migration *)

Module MigrateFacts.
Import dialect schema sqldb session geeorm spec spec_more.
Local Open Scope nat_scope.

Local Arguments Join : simpl never.
Local Arguments String.append : simpl never.

(** The wrapper around a callback that leaves the handle in place. *)
Lemma Transaction_run (D : Driver) (e : Engine) (f : TxFunc)
    (tr : list event) (t : sqlTx) (o : outcome (value * option error))
    (st2 : State) :
  sqldb.Begin D tr (db e) = inl t →
  f (mkState (set_tx (Some t) (NewSession e)) (tr ++ [EvBegin (db e)]))
  = (o, st2) →
  tx (sess st2) = Some t →
  Transaction D e f tr
  = match o with
    | Panic p => (Panic p, trace st2 ++ [EvRollback t])
    | Ok (result, Some err) =>
        (Ok (result, Some err), trace st2 ++ [EvRollback t])
    | Ok (result, None) =>
        (Ok (result, sqldb.Commit D (trace st2) t), trace st2 ++ [EvCommit t])
    end.
Proof.
  intros Hbegin Hf Hkeep.
  unfold Transaction, with_session, bind. rewrite EngineFacts.Begin_run.
  change (session.db (NewSession e)) with (db e). rewrite Hbegin.
  unfold defer_recover. rewrite Hf.
  destruct o as [[result [err|]]|p]; simpl.
  - by rewrite (EngineFacts.Rollback_run D st2 t Hkeep).
  - by rewrite (EngineFacts.Commit_run D st2 t Hkeep).
  - unfold throw. by rewrite (EngineFacts.Rollback_run D st2 t Hkeep).
Qed.

(** The callback of [Migrate] up to the answer of [HasTable]. *)
Lemma Migrate_probe {A} (D : Driver) (e : Engine) (value : object)
    (t : sqlTx) (tr1 : list event) (table : Schema) (k : bool → M State A) :
  Parse value (dialect e) = Ok table →
  let probe := TableExistSQL (dialect e) (TableName table) in
  let q := probe.1 +:+ " " in
  let row := sqldb.QueryRow D tr1 (ViaDB (db e)) q probe.2 in
  (Model value ;;; has <- HasTable D ;; k has)
    (mkState (set_tx (Some t) (NewSession e)) tr1)
  = k (bool_decide (match Scan_string row with inl v => v | inr _ => "" end
                    = TableName table))
      (mkState (bound_in e t table)
               (tr1 ++ [EvQueryRow (ViaDB (db e)) q probe.2])).
Proof.
  intros Hparse. cbv zeta.
  set (st1 := mkState (set_tx (Some t) (NewSession e)) tr1).
  assert (Hwf : session_wf (sess st1)) by (split; [done | discriminate]).
  rewrite (MonadFacts.bind_Ok _ _ _ _ _
             (FirstFacts.Model_run value st1 table Hwf Hparse)).
  rewrite (MonadFacts.bind_Ok _ _ _ _ _
             (SessionMoreFacts.HasTable_run D
                (mkState (set_refTable (Some table) (sess st1)) (trace st1))
                table eq_refl)).
  reflexivity.
Qed.

(** X27. [Migrate] of a model the dialect maps, when the probe of
    [HasTable] does not find the table: inside the transaction it executes
    the CREATE TABLE statement and nothing else; it commits and returns
    what the commit returns when the driver accepts the statement, and
    rolls back and returns the driver's error otherwise. The probe itself
    goes through the plain connection. *)
Theorem Migrate_creates (D : Driver) (e : Engine) (value : object)
    (tr : list event) (t : sqlTx) (table : Schema) :
  Parse value (dialect e) = Ok table →
  sqldb.Begin D tr (db e) = inl t →
  let tr1 := tr ++ [EvBegin (db e)] in
  let probe := TableExistSQL (dialect e) (TableName table) in
  let row := sqldb.QueryRow D tr1 (ViaDB (db e)) (probe.1 +:+ " ") probe.2 in
  match Scan_string row with inl v => v | inr _ => "" end ≠ TableName table →
  let tr2 := tr1 ++ [EvQueryRow (ViaDB (db e)) (probe.1 +:+ " ") probe.2] in
  let columns :=
    (λ f, Name f +:+ " " +:+ Type_ f +:+ " " +:+ Tag f) <$> Fields table in
  let create := ("CREATE TABLE " +:+ TableName table +:+ " (" +:+
                 Join columns "," +:+ ");") +:+ " " in
  let tr3 := tr2 ++ [EvExec (ViaTx t) create []] in
  Migrate D e value tr
  = match sqldb.Exec D tr2 (ViaTx t) create [] with
    | inr err => (Ok (Some err), tr3 ++ [EvRollback t])
    | inl _ => (Ok (sqldb.Commit D tr3 t), tr3 ++ [EvCommit t])
    end.
Proof.
  intros Hparse Hbegin tr1 probe row Hmissing tr2 columns create tr3.
  assert (Migrate_func D value
            (mkState (set_tx (Some t) (NewSession e)) tr1)
          = (Ok (VNil, err_of (sqldb.Exec D tr2 (ViaTx t) create [])),
             mkState (bound_in e t table) tr3)) as Hf.
  { unfold Migrate_func.
    rewrite (Migrate_probe D e value t tr1 table _ Hparse). cbv zeta.
    fold probe. fold row. rewrite bool_decide_eq_false_2 by done.
    cbn [negb]. fold tr2.
    rewrite (MonadFacts.bind_Ok _ _ _ _ _
               (SessionMoreFacts.CreateTable_run D
                  (mkState (bound_in e t table) tr2) table eq_refl)).
    reflexivity. }
  unfold Migrate, bind.
  rewrite (Transaction_run D e _ tr t _ _ Hbegin Hf eq_refl).
  by destruct (sqldb.Exec D tr2 (ViaTx t) create []).
Qed.

Lemma Migrate_creates_witness :
  Parse (mkObject true User) (dialect engine0) = Ok User_schema
  ∧ sqldb.Begin no_table [] (db engine0) = inl 0
  ∧ Migrate no_table engine0 (mkObject true User) []
    = (Ok None,
       [EvBegin 7;
        EvQueryRow (ViaDB 7)
          "SELECT name FROM sqlite_master WHERE type='table' and name = ? "
          [VStr "User"];
        EvExec (ViaTx 0)
          "CREATE TABLE User (Name text PRIMARY KEY,Age integer ); " [];
        EvCommit 0]).
Proof.
  split; [reflexivity|]. split; [reflexivity|].
  refine (eq_trans (Migrate_creates no_table engine0 (mkObject true User) [] 0
                      User_schema eq_refl eq_refl _) eq_refl).
  discriminate.
Defined.

(** The callback of [Migrate] when the probe finds the table, up to the
    answer to the query for the live columns; [k] is the rest. *)
Lemma Migrate_live (D : Driver) (e : Engine) (value : object)
    (t : sqlTx) (tr1 : list event) (table : Schema) :
  Parse value (dialect e) = Ok table →
  let probe := TableExistSQL (dialect e) (TableName table) in
  let row := sqldb.QueryRow D tr1 (ViaDB (db e)) (probe.1 +:+ " ") probe.2 in
  match Scan_string row with inl v => v | inr _ => "" end = TableName table →
  let tr2 := tr1 ++ [EvQueryRow (ViaDB (db e)) (probe.1 +:+ " ") probe.2] in
  let sel := ("SELECT * FROM " +:+ TableName table +:+ " LIMIT 1") +:+ " " in
  let tr3 := tr2 ++ [EvQuery (ViaTx t) sel []] in
  Migrate_func D value (mkState (set_tx (Some t) (NewSession e)) tr1)
  = match sqldb.Query D tr2 (ViaTx t) sel [] with
    | inr _ => (Panic NilDereference, mkState (bound_in e t table) tr3)
    | inl rows =>
        let columns := match Columns rows with inl c => c | inr _ => [] end in
        (err <- Migrate_add D table (Migrate_cols table columns).1 ;;
         match err with
         | Some err => ret (VNil, Some err)
         | None =>
             if decide (length (Migrate_cols table columns).2 = 0)
             then ret (VNil, None)
             else
               let tmp := "tmp_" +:+ TableName table in
               let fieldStr := Join (FieldNames table) ", " in
               Raw ("CREATE TABLE " +:+ tmp +:+ " AS SELECT " +:+ fieldStr +:+
                    " from " +:+ TableName table +:+ ";") [] ;;;
               Raw ("DROP TABLE " +:+ TableName table +:+ ";") [] ;;;
               Raw ("ALTER TABLE " +:+ tmp +:+ " RENAME TO " +:+
                    TableName table +:+ ";") [] ;;;
               r <- Exec D ;;
               ret (VNil, err_of r)
         end) (mkState (bound_in e t table) tr3)
    end.
Proof.
  intros Hparse probe row Hfound tr2 sel tr3.
  unfold Migrate_func.
  rewrite (Migrate_probe D e value t tr1 table _ Hparse). cbv zeta.
  fold probe. fold row. rewrite bool_decide_eq_true_2 by done.
  cbn [negb]. fold tr2.
  set (st2 := mkState (bound_in e t table) tr2).
  rewrite (MonadFacts.bound_table _ st2 table eq_refl).
  rewrite (MonadFacts.bind_Ok _ _ _ _ _ (SessionMoreFacts.Raw_run _ _ st2)).
  rewrite (MonadFacts.bind_Ok _ _ _ _ _ (SessionFacts.QueryRows_run D _)).
  cbn [sess trace]. 
  change (sqldb.Query D _ _ _ _) with (sqldb.Query D tr2 (ViaTx t) sel []).
  destruct (sqldb.Query D tr2 (ViaTx t) sel []) as [rows|err].
  - unfold bind at 1. unfold deref at 1. unfold ret at 1. reflexivity.
  - reflexivity.
Qed.

(** X28. [Migrate], when the probe finds the table but the query for its
    live columns fails: the callback goes on with the nil cursor and
    panics; the wrapper rolls the transaction back and [Migrate] panics
    with the same value. *)
Theorem Migrate_query_fails (D : Driver) (e : Engine) (value : object)
    (tr : list event) (t : sqlTx) (table : Schema) (err : error) :
  Parse value (dialect e) = Ok table →
  sqldb.Begin D tr (db e) = inl t →
  let tr1 := tr ++ [EvBegin (db e)] in
  let probe := TableExistSQL (dialect e) (TableName table) in
  let row := sqldb.QueryRow D tr1 (ViaDB (db e)) (probe.1 +:+ " ") probe.2 in
  match Scan_string row with inl v => v | inr _ => "" end = TableName table →
  let tr2 := tr1 ++ [EvQueryRow (ViaDB (db e)) (probe.1 +:+ " ") probe.2] in
  let sel := ("SELECT * FROM " +:+ TableName table +:+ " LIMIT 1") +:+ " " in
  sqldb.Query D tr2 (ViaTx t) sel [] = inr err →
  Migrate D e value tr
  = (Panic NilDereference,
     tr2 ++ [EvQuery (ViaTx t) sel []] ++ [EvRollback t]).
Proof.
  intros Hparse Hbegin tr1 probe row Hfound tr2 sel Hquery.
  pose proof (Migrate_live D e value t tr1 table Hparse Hfound) as Hf.
  cbv zeta in Hf. fold probe tr2 sel in Hf. rewrite Hquery in Hf.
  unfold Migrate, bind.
  rewrite (Transaction_run D e _ tr t _ _ Hbegin Hf eq_refl).
  simpl. by rewrite <- app_assoc.
Qed.

Lemma Migrate_query_fails_witness :
  Parse (mkObject true User) (dialect engine0) = Ok User_schema
  ∧ sqldb.Begin no_query [] (db engine0) = inl 0
  ∧ Migrate no_query engine0 (mkObject true User) []
    = (Panic NilDereference,
       [EvBegin 7;
        EvQueryRow (ViaDB 7)
          "SELECT name FROM sqlite_master WHERE type='table' and name = ? "
          [VStr "User"];
        EvQuery (ViaTx 0) "SELECT * FROM User LIMIT 1 " [];
        EvRollback 0]).
Proof.
  split; [reflexivity|]. split; [reflexivity|].
  exact (eq_trans (Migrate_query_fails no_query engine0 (mkObject true User)
                     [] 0 User_schema (DriverError "database is locked")
                     eq_refl eq_refl eq_refl eq_refl) eq_refl).
Defined.

Lemma filter_none {A} (P : A → Prop) `{∀ x, Decision (P x)} (l : list A) :
  (∀ x, x ∈ l → ¬ P x) → filter P l = [].
Proof.
  induction l as [|x l IH]; intros Hall; [done|].
  rewrite filter_cons_False by (apply Hall; left).
  apply IH. intros y Hy. apply Hall. by right.
Qed.

(** The loop that adds columns, on a driver that accepts every statement
    of the transaction. *)
Lemma Migrate_add_run (D : Driver) (e : Engine) (t : sqlTx) (table : Schema)
    (adds : list string) :
  (∀ tr' q, ∃ r, sqldb.Exec D tr' (ViaTx t) q [] = inl r) →
  (∀ c, c ∈ adds → is_Some (GetField table c)) →
  ∀ tr',
    Migrate_add D table adds (mkState (bound_in e t table) tr')
    = (Ok None,
       mkState (bound_in e t table)
               (tr' ++ execs (ViaTx t) (add_column table <$> adds))).
Proof.
  intros Haccept. induction adds as [|c adds IH]; intros Hsome tr'.
  - simpl. by rewrite app_nil_r.
  - destruct (Hsome c) as [f Hf]; [left|].
    cbn [Migrate_add]. rewrite Hf.
    unfold bind at 1. unfold deref at 1. unfold ret at 1.
    rewrite (MonadFacts.bind_Ok _ _ _ _ _ (SessionMoreFacts.Raw_run _ _ _)).
    rewrite (MonadFacts.bind_Ok _ _ _ _ _ (SessionFacts.Exec_run D _)).
    cbn [sess trace].
    set (q := ("ALTER TABLE " +:+ TableName table +:+ " ADD COLUMN " +:+
               Name f +:+ " " +:+ Type_ f +:+ ";") +:+ " ").
    change (sqldb.Exec D _ _ _ _) with (sqldb.Exec D tr' (ViaTx t) q []).
    destruct (Haccept tr' q) as [r ->].
    change (Migrate_add D table adds
              (mkState (bound_in e t table) (tr' ++ [EvExec (ViaTx t) q []]))
            = (Ok None,
               mkState (bound_in e t table)
                 (tr' ++ execs (ViaTx t) (add_column table <$> c :: adds)))).
    rewrite IH by (intros c' Hc'; apply Hsome; by right).
    rewrite <- app_assoc. simpl. unfold add_column at 2. by rewrite Hf.
Qed.

(** X29. [Migrate] of a model whose table exists with exactly the declared
    columns, in any order: beyond the probe and the query for the live
    columns it sends no statement, and commits. *)
Theorem Migrate_up_to_date (D : Driver) (e : Engine) (value : object)
    (tr : list event) (t : sqlTx) (table : Schema) (rows : Rows) :
  Parse value (dialect e) = Ok table →
  sqldb.Begin D tr (db e) = inl t →
  let tr1 := tr ++ [EvBegin (db e)] in
  let probe := TableExistSQL (dialect e) (TableName table) in
  let row := sqldb.QueryRow D tr1 (ViaDB (db e)) (probe.1 +:+ " ") probe.2 in
  match Scan_string row with inl v => v | inr _ => "" end = TableName table →
  let tr2 := tr1 ++ [EvQueryRow (ViaDB (db e)) (probe.1 +:+ " ") probe.2] in
  let sel := ("SELECT * FROM " +:+ TableName table +:+ " LIMIT 1") +:+ " " in
  sqldb.Query D tr2 (ViaTx t) sel [] = inl rows →
  let columns := match Columns rows with inl c => c | inr _ => [] end in
  (∀ c, c ∈ columns ↔ c ∈ FieldNames table) →
  let tr3 := tr2 ++ [EvQuery (ViaTx t) sel []] in
  Migrate D e value tr = (Ok (sqldb.Commit D tr3 t), tr3 ++ [EvCommit t]).
Proof.
  intros Hparse Hbegin tr1 probe row Hfound tr2 sel Hquery columns Hsame tr3.
  pose proof (Migrate_live D e value t tr1 table Hparse Hfound) as Hf.
  cbv zeta in Hf. fold probe tr2 sel in Hf. rewrite Hquery in Hf.
  fold columns tr3 in Hf. unfold Migrate_cols in Hf.
  rewrite !EngineFacts.difference_filter in Hf. cbn [fst snd] in Hf.
  rewrite (filter_none (λ s, s ∉ columns)) in Hf
    by (intros c Hc Hn; apply Hn; by apply Hsame).
  rewrite (filter_none (λ s, s ∉ FieldNames table)) in Hf
    by (intros c Hc Hn; apply Hn; by apply Hsame).
  unfold Migrate, bind.
  by rewrite (Transaction_run D e _ tr t _ _ Hbegin Hf eq_refl).
Qed.

Lemma Migrate_up_to_date_witness :
  Parse (mkObject true User) (dialect engine0) = Ok User_schema
  ∧ sqldb.Begin accepting [] (db engine0) = inl 0
  ∧ (∀ c, c ∈ ["Name"; "Age"] ↔ c ∈ FieldNames User_schema)
  ∧ Migrate accepting engine0 (mkObject true User) []
    = (Ok None,
       [EvBegin 7;
        EvQueryRow (ViaDB 7)
          "SELECT name FROM sqlite_master WHERE type='table' and name = ? "
          [VStr "User"];
        EvQuery (ViaTx 0) "SELECT * FROM User LIMIT 1 " [];
        EvCommit 0]).
Proof.
  assert (H : ∀ c, c ∈ ["Name"; "Age"] ↔ c ∈ FieldNames User_schema)
    by (intros c; reflexivity).
  split; [reflexivity|]. split; [reflexivity|]. split; [exact H|].
  exact (eq_trans (Migrate_up_to_date accepting engine0 (mkObject true User)
                     [] 0 User_schema _ eq_refl eq_refl eq_refl eq_refl H)
                  eq_refl).
Defined.

(** X30. [Migrate] of a model whose table exists, on a driver that accepts
    every statement of the transaction: it adds the declared columns that
    are not live, one ALTER TABLE statement each in declaration order, then,
    if a live column is not declared, rebuilds the table with the declared
    columns, the three statements of the rebuild sent as one; then it
    commits. *)
Theorem Migrate_alters (D : Driver) (e : Engine) (value : object)
    (tr : list event) (t : sqlTx) (table : Schema) (rows : Rows) :
  Parse value (dialect e) = Ok table →
  sqldb.Begin D tr (db e) = inl t →
  (∀ tr' q, ∃ r, sqldb.Exec D tr' (ViaTx t) q [] = inl r) →
  let tr1 := tr ++ [EvBegin (db e)] in
  let probe := TableExistSQL (dialect e) (TableName table) in
  let row := sqldb.QueryRow D tr1 (ViaDB (db e)) (probe.1 +:+ " ") probe.2 in
  match Scan_string row with inl v => v | inr _ => "" end = TableName table →
  let tr2 := tr1 ++ [EvQueryRow (ViaDB (db e)) (probe.1 +:+ " ") probe.2] in
  let sel := ("SELECT * FROM " +:+ TableName table +:+ " LIMIT 1") +:+ " " in
  sqldb.Query D tr2 (ViaTx t) sel [] = inl rows →
  let columns := match Columns rows with inl c => c | inr _ => [] end in
  let adds := filter (λ c, c ∉ columns) (FieldNames table) in
  let dels := filter (λ c, c ∉ FieldNames table) columns in
  let tr4 := tr2 ++ [EvQuery (ViaTx t) sel []]
             ++ execs (ViaTx t)
                  ((add_column table <$> adds)
                   ++ if decide (dels = []) then [] else [rebuild table]) in
  Migrate D e value tr = (Ok (sqldb.Commit D tr4 t), tr4 ++ [EvCommit t]).
Proof.
  intros Hparse Hbegin Haccept tr1 probe row Hfound tr2 sel Hquery columns
         adds dels tr4.
  pose proof (Migrate_live D e value t tr1 table Hparse Hfound) as Hf.
  cbv zeta in Hf. fold probe tr2 sel in Hf. rewrite Hquery in Hf.
  fold columns in Hf. unfold Migrate_cols in Hf.
  rewrite !EngineFacts.difference_filter in Hf. cbn [fst snd] in Hf.
  fold adds dels in Hf.
  assert (Hsome : ∀ c, c ∈ adds → is_Some (GetField table c)).
  { intros c Hc. apply list_elem_of_filter in Hc as [_ Hc].
    destruct (RecordValuesFacts.Parse_consistent _ _ _ Hparse)
      as (_ & Hnone & _).
    apply not_eq_None_Some. intros Hn. by apply Hnone in Hn. }
  rewrite (MonadFacts.bind_Ok _ _ _ _ _
             (Migrate_add_run D e t table adds Haccept Hsome _)) in Hf.
  assert (∃ st4, tx (sess st4) = Some t ∧ trace st4 = tr4
                 ∧ Migrate_func D value
                     (mkState (set_tx (Some t) (NewSession e)) tr1)
                   = (Ok (VNil, None), st4)) as (st4 & Htx & Htr & Hf4).
  { rewrite Hf. unfold tr4. destruct (decide (dels = [])) as [Hd|Hd].
    - rewrite Hd. simpl. eexists. split; [|split; [|reflexivity]]; [done|].
      simpl. by rewrite app_nil_r, <- app_assoc.
    - rewrite decide_False by (by destruct dels).
      cbv zeta.
      rewrite (MonadFacts.bind_Ok _ _ _ _ _ (SessionMoreFacts.Raw_run _ _ _)).
      rewrite (MonadFacts.bind_Ok _ _ _ _ _ (SessionMoreFacts.Raw_run _ _ _)).
      rewrite (MonadFacts.bind_Ok _ _ _ _ _ (SessionMoreFacts.Raw_run _ _ _)).
      rewrite (MonadFacts.bind_Ok _ _ _ _ _ (SessionFacts.Exec_run D _)).
      cbn [sess trace].
      set (tr' := (tr2 ++ [EvQuery (ViaTx t) sel []]) ++ _).
      change (sqldb.Exec D _ _ _ _)
        with (sqldb.Exec D tr' (ViaTx t) (rebuild table) []).
      destruct (Haccept tr' (rebuild table)) as [r ->].
      eexists. split; [|split; [|reflexivity]]; [done|].
      simpl. unfold tr', execs. rewrite fmap_app. simpl.
      by rewrite <- !app_assoc. }
  unfold Migrate, bind.
  rewrite (Transaction_run D e _ tr t _ _ Hbegin Hf4 Htx). simpl.
  by rewrite Htr.
Qed.

Lemma Migrate_alters_witness :
  Parse (mkObject true User) (dialect engine0) = Ok User_schema
  ∧ sqldb.Begin stale_table [] (db engine0) = inl 0
  ∧ (∀ tr' q, ∃ r, sqldb.Exec stale_table tr' (ViaTx 0) q [] = inl r)
  ∧ Migrate stale_table engine0 (mkObject true User) []
    = (Ok None,
       [EvBegin 7;
        EvQueryRow (ViaDB 7)
          "SELECT name FROM sqlite_master WHERE type='table' and name = ? "
          [VStr "User"];
        EvQuery (ViaTx 0) "SELECT * FROM User LIMIT 1 " [];
        EvExec (ViaTx 0) "ALTER TABLE User ADD COLUMN Age integer; " [];
        EvExec (ViaTx 0)
          "CREATE TABLE tmp_User AS SELECT Name, Age from User; DROP TABLE User; ALTER TABLE tmp_User RENAME TO User; "
          [];
        EvCommit 0]).
Proof.
  assert (H : ∀ tr' q,
            ∃ r, sqldb.Exec stale_table tr' (ViaTx 0) q [] = inl r)
    by (intros tr' q; eexists; reflexivity).
  split; [reflexivity|]. split; [reflexivity|]. split; [exact H|].
  exact (eq_trans (Migrate_alters stale_table engine0 (mkObject true User)
                     [] 0 User_schema _ eq_refl eq_refl H eq_refl eq_refl)
                  eq_refl).
Defined.

End MigrateFacts.
